(** * Surface voxelisation of triangle meshes

    A shallow embedding of [kaolin/ops/conversions/trianglemesh.py]
    ([trianglemeshes_to_voxelgrids]) and of the two helpers it calls.

    Conventions of the model.
    - Tensor entries are exact rationals ([Q]): IEEE rounding, overflow,
      infinities and NaN are outside the model (in particular a division by a
      zero scale, which gives 0 here).
    - A tensor of shape [(B, V, 3)] is a list of [B] lists of points, a tensor
      of shape [(B, 3)] a list of points, a tensor of shape [(B)] a list of
      rationals.  The last axis (size 3) is fixed by the types; the other axes
      are list lengths, and torch's broadcasting and shape errors along them
      are modelled explicitly.  An empty list does not record the sizes of
      its inner axes: shape [(0, 0, 3)] is not told from [(0, V, 3)].
    - The allocation of the result checks the sizes against int64; the memory
      available is not modelled.  Apart from evaluations at concrete inputs,
      a statement says that a call returns only under the assumption that
      other calls with the same resolution return.
    - Exceptions are values of [exn]; every function that can raise returns a
      [result].
    - The in-place loop over the batch is a fold that threads the tensor
      [voxelgrids] through the iterations. *)

From Stdlib Require Import ZArith QArith Qminmax Qround Qabs Lia Lqa Bool.
From stdpp Require Import base list.

Local Open Scope nat_scope.

(** ** Exceptions and the error monad *)

Inductive exn : Type :=
| TypeError
| RuntimeError
| IndexError
| InvalidArgument.

Inductive result (A : Type) : Type :=
| Ok (a : A)
| Raise (e : exn).

Arguments Ok {A} a.
Arguments Raise {A} e.

Definition bind {A B : Type} (m : result A) (k : A -> result B) : result B :=
  match m with
  | Ok a => k a
  | Raise e => Raise e
  end.

Notation "x <- m ;; k" := (bind m (fun x => k))
  (at level 100, m at next level, right associativity).

Fixpoint mapM {A B : Type} (f : A -> result B) (l : list A) : result (list B) :=
  match l with
  | [] => Ok []
  | x :: l' => y <- f x ;; ys <- mapM f l' ;; Ok (y :: ys)
  end.

(** [for i in range(n): st = body i st], stopping at the first exception. *)
Fixpoint for_loop {S : Type} (idx : list nat) (body : nat -> S -> result S) (st : S)
  : result S :=
  match idx with
  | [] => Ok st
  | i :: idx' => st' <- body i st ;; for_loop idx' body st'
  end.

Definition for_range {S : Type} (n : nat) (body : nat -> S -> result S) (st : S)
  : result S :=
  for_loop (seq 0 n) body st.

(** ** Data *)

Definition point : Type := Q * Q * Q.
Definition face : Type := Z * Z * Z.
Definition voxel : Type := Z * Z * Z.
Definition triangle : Type := point * point * point.

Definition px (p : point) : Q := fst (fst p).
Definition py (p : point) : Q := snd (fst p).
Definition pz (p : point) : Q := snd p.

(** A dense grid of shape [(R, R, R)], indexed [grid[x][y][z]]. *)
Definition grid : Type := list (list (list Q)).

(** The element type of [vertices]; only floating-point meshes are modelled. *)
Inductive dtype : Type := float16 | float32 | float64.
Inductive device : Type := cpu | cuda (ordinal : nat).

(** The two layouts a voxel-grid tensor can have: a strided (dense) tensor of
    shape [(B, R, R, R)], or a sparse COO tensor given by its index rows
    [(b, x, y, z)] (all values are 1). *)
Inductive storage : Type :=
| Strided (cells : list grid)
| SparseCOO (indices : list (Z * voxel)).

Record tensor (A : Type) : Type := mkTensor
  { t_dtype : dtype; t_device : device; t_data : A }.

Arguments mkTensor {A} _ _ _.
Arguments t_dtype {A} _.
Arguments t_device {A} _.
Arguments t_data {A} _.

(** The Python object passed as [resolution]: an [int], or an object of
    another type (a [float], [None]).  [bool], which Python counts as an
    [int], is not modelled. *)
Inductive pyobj : Type :=
| PyInt (n : Z)
| PyFloat (q : Q)
| PyNone.

Definition isinstance_int (o : pyobj) : bool :=
  match o with
  | PyInt _ => true
  | _ => false
  end.

(** ** The torch operations the function uses *)

Definition pmin (a b : point) : point :=
  (Qmin (px a) (px b), Qmin (py a) (py b), Qmin (pz a) (pz b)).

Definition pmax (a b : point) : point :=
  (Qmax (px a) (px b), Qmax (py a) (py b), Qmax (pz a) (pz b)).

Definition psub (a b : point) : point :=
  (px a - px b, py a - py b, pz a - pz b)%Q.

Definition pdiv (a : point) (s : Q) : point :=
  (px a / s, py a / s, pz a / s)%Q.

(** Reduction of one batch item along the vertex axis; torch refuses to
    reduce an axis of size zero ([IndexError]). *)
Definition reduce_points (op : point -> point -> point) (vs : list point)
  : result point :=
  match vs with
  | [] => Raise IndexError
  | v :: vs' => Ok (foldl op v vs')
  end.

(** [torch.min(t, dim=1)[0]] and [torch.max(t, dim=1)[0]] at shape [(B, V, 3)]. *)
Definition torch_min_dim1 (t : list (list point)) : result (list point) :=
  mapM (reduce_points pmin) t.

Definition torch_max_dim1 (t : list (list point)) : result (list point) :=
  mapM (reduce_points pmax) t.

(** [torch.max(t, dim=1)[0]] at shape [(B, 3)]. *)
Definition max_axes (p : point) : Q := Qmax (Qmax (px p) (py p)) (pz p).

(** Broadcasting of a binary operation along the batch axis: equal sizes
    pair up, a size 1 is repeated, anything else is a shape error. *)
Definition broadcast0 {A B C : Type} (f : A -> B -> C) (xs : list A) (ys : list B)
  : result (list C) :=
  if length xs =? length ys then Ok (zip_with f xs ys)
  else match xs, ys with
       | [x], _ => Ok (map (f x) ys)
       | _, [y] => Ok (map (fun x => f x y) xs)
       | _, _ => Raise RuntimeError
       end.

Definition zeros3 (R : nat) : grid := repeat (repeat (repeat 0%Q R) R) R.

Definition int64_bound : Z := 9223372036854775808%Z.

(** [torch.zeros((B, R, R, R))].  A size that is not an int64 cannot be
    unpacked ([TypeError]); a negative size is refused; so is a size for
    which the [R * R * R] elements of one item overflow int64. *)
Definition torch_zeros (B : nat) (R : Z) : result (list grid) :=
  if ((R <? - int64_bound) || (int64_bound <=? R))%Z then Raise TypeError
  else if (R <? 0)%Z then Raise RuntimeError
  else if (int64_bound <=? R * R * R)%Z then Raise RuntimeError
  else Ok (repeat (zeros3 (Z.to_nat R)) B).

(** [t[i]] on the batch axis. *)
Definition getitem {A : Type} (t : list A) (i : nat) : result A :=
  match t !! i with
  | Some x => Ok x
  | None => Raise IndexError
  end.

(** Expansion of one axis to size [n]: a size-1 axis is repeated. *)
Definition expand {A : Type} (n : nat) (l : list A) : result (list A) :=
  if length l =? n then Ok l
  else match l with
       | [x] => Ok (repeat x n)
       | _ => Raise RuntimeError
       end.

(** Expansion of a value of shape [(d1, d2, d3)] to [(R, R, R)]: every axis
    must have size 1 or [R], the inner axes of every element included. *)
Definition expand3 (R : nat) (g : grid) : result grid :=
  planes <- mapM (fun plane => rows <- mapM (expand R) plane ;; expand R rows) g ;;
  expand R planes.

(** [voxelgrids[i] = value] for a slot of shape [(R, R, R)].  The slot is
    selected first.  A strided value of shape [(1, d1, d2, d3)] is broadcast
    into it; a value with another leading size does not fit, and torch has no
    copy from a sparse tensor into a strided one. *)
Definition setitem (voxelgrids : list grid) (R : nat) (i : nat) (value : storage)
  : result (list grid) :=
  if i <? length voxelgrids then
    match value with
    | Strided [g] => g' <- expand3 R g ;; Ok (<[i := g']> voxelgrids)
    | Strided _ => Raise RuntimeError
    | SparseCOO _ => Raise RuntimeError
    end
  else Raise IndexError.

(** ** [trianglemeshes_to_voxelgrids] *)

Section Conversion.

(** The two helpers imported by the module. *)
Variable _unbatched_subdivide_vertices :
  list point -> list face -> Z -> result (list point).
Variable _base_points_to_voxelgrids :
  list (list point) -> Z -> bool -> result storage.

(** The body of the loop over the batch. *)
Definition convert_item (batched_points : list (list point)) (faces : list face)
    (resolution : Z) (return_sparse : bool) (i : nat) (voxelgrids : list grid)
  : result (list grid) :=
  item <- getitem batched_points i ;;
  points <- _unbatched_subdivide_vertices item faces resolution ;;
  voxelgrid <- _base_points_to_voxelgrids [points] resolution return_sparse ;;
  setitem voxelgrids (Z.to_nat resolution) i voxelgrid.

Definition trianglemeshes_to_voxelgrids
    (vertices : tensor (list (list point))) (faces : list face)
    (resolution : pyobj) (origin : option (list point)) (scale : option (list Q))
    (return_sparse : bool) : result (tensor storage) :=
  let vertices_dtype := t_dtype vertices in
  let vertices_device := t_device vertices in
  match resolution with
  | PyInt resolution =>
      origin <- match origin with
                | None => torch_min_dim1 (t_data vertices)
                | Some origin => Ok origin
                end ;;
      scale <- match scale with
               | None =>
                   max_val <- torch_max_dim1 (t_data vertices) ;;
                   extent <- broadcast0 psub max_val origin ;;
                   Ok (map max_axes extent)
               | Some scale => Ok scale
               end ;;
      let batch_size := length (t_data vertices) in
      voxelgrids <- torch_zeros batch_size resolution ;;
      shifted <- broadcast0 (fun vs o => map (fun v => psub v o) vs)
                            (t_data vertices) origin ;;
      batched_points <- broadcast0 (fun vs s => map (fun v => pdiv v s) vs)
                                   shifted scale ;;
      voxelgrids <- for_range batch_size
                      (convert_item batched_points faces resolution return_sparse)
                      voxelgrids ;;
      Ok (mkTensor vertices_dtype vertices_device (Strided voxelgrids))
  | _ => Raise TypeError
  end.

End Conversion.

(** ** The helpers, from the specification *)

(** *** Subdivider *)

Definition midpoint (a b : point) : point :=
  ((px a + px b) / 2, (py a + py b) / 2, (pz a + pz b) / 2)%Q.

(** Squared length of the edge between two points. *)
Definition edge_sq (a b : point) : Q :=
  ((px a - px b) * (px a - px b) + (py a - py b) * (py a - py b)
   + (pz a - pz b) * (pz a - pz b))%Q.

Definition edges_sq (t : triangle) : list Q :=
  let '(a, b, c) := t in [edge_sq a b; edge_sq b c; edge_sq c a].

Definition longest_edge_sq (t : triangle) : Q :=
  let '(a, b, c) := t in Qmax (Qmax (edge_sq a b) (edge_sq b c)) (edge_sq c a).

Definition corners (t : triangle) : list point :=
  let '(a, b, c) := t in [a; b; c].

(** Modelled from the spec: one round of midpoint subdivision (section 4.2,
    glossary): the triangle is split into 4 sub-triangles by connecting the
    midpoints of its three edges. *)
Definition split (t : triangle) : list triangle :=
  let '(a, b, c) := t in
  let ab := midpoint a b in
  let bc := midpoint b c in
  let ca := midpoint c a in
  [(a, ab, ca); (ab, b, bc); (ca, bc, c); (ab, bc, ca)].

(** Modelled from the spec: the number of rounds of a face (section 4.2), known
    in advance from its longest edge [L] and the voxel width [1/resolution]:
    the least [d] with [L / 2^d <= 1/resolution], that is with
    [L^2 * resolution^2 <= 4^d]. *)
Definition rounds_for (resolution : Z) (t : triangle) : nat :=
  let n := Qceiling (longest_edge_sq t * inject_Z (resolution * resolution)) in
  Z.to_nat ((Z.log2_up n + 1) / 2).

(** The sub-triangles after [d] rounds. *)
Fixpoint refine (d : nat) (ts : list triangle) : list triangle :=
  match d with
  | O => ts
  | S d' => refine d' (flat_map split ts)
  end.

(** The triangles of all rounds, from the face itself to round [d]. *)
Fixpoint all_rounds (d : nat) (ts : list triangle) : list triangle :=
  match d with
  | O => ts
  | S d' => ts ++ all_rounds d' (flat_map split ts)
  end.

Definition face_points (resolution : Z) (t : triangle) : list point :=
  flat_map corners (all_rounds (rounds_for resolution t) [t]).

Definition vertex_at (vertices : list point) (i : Z) : result point :=
  if ((0 <=? i) && (i <? Z.of_nat (length vertices)))%Z
  then getitem vertices (Z.to_nat i)
  else Raise InvalidArgument.

(** Modelled from the spec: a face index outside [0, V) is an
    [InvalidArgument] (section 7). *)
Definition face_triangle (vertices : list point) (f : face) : result triangle :=
  let '(i, j, k) := f in
  a <- vertex_at vertices i ;;
  b <- vertex_at vertices j ;;
  c <- vertex_at vertices k ;;
  Ok (a, b, c).

(** Modelled from the spec: [_unbatched_subdivide_vertices], the Subdivider of
    section 4.2, which is not part of the module.  Its result is the original
    vertices together with the vertices of every sub-triangle of every round
    of every face, flattened into one list of points. *)
Definition subdivide (vertices : list point) (faces : list face) (resolution : Z)
  : result (list point) :=
  triangles <- mapM (face_triangle vertices) faces ;;
  Ok (vertices ++ flat_map (face_points resolution) triangles).

(** *** Rasterizer *)

(** Modelled from the spec: the voxel index of one coordinate (section 4.3),
    [floor(p * resolution)], clamped into the grid so that [p = 1.0] lands in
    voxel [resolution - 1] (the clamping policy of sections 4.3 and 9). *)
Definition voxel_index (resolution : Z) (c : Q) : Z :=
  Z.max 0 (Z.min (resolution - 1) (Qfloor (c * inject_Z resolution))).

Definition voxel_of (resolution : Z) (p : point) : voxel :=
  (voxel_index resolution (px p), voxel_index resolution (py p),
   voxel_index resolution (pz p)).

Definition voxel_eqb (u v : voxel) : bool :=
  let '(a, b, c) := u in
  let '(a', b', c') := v in
  ((a =? a') && (b =? b') && (c =? c'))%Z.

Definition occupies (occ : list voxel) (v : voxel) : bool :=
  existsb (voxel_eqb v) occ.

(** The distinct elements of a list of voxels, in order of first occurrence. *)
Fixpoint distinct (seen : list voxel) (l : list voxel) : list voxel :=
  match l with
  | [] => []
  | v :: l' =>
      if occupies seen v then distinct seen l'
      else v :: distinct (v :: seen) l'
  end.

(** Modelled from the spec: the sparse form of a grid (sections 3 and 4.3), the
    set of distinct occupied indices. *)
Definition occupied (resolution : Z) (points : list point) : list voxel :=
  distinct [] (map (voxel_of resolution) points).

Definition axis (R : nat) : list Z := map Z.of_nat (seq 0 R).

(** The dense grid of side [R] with exactly the listed cells set to 1. *)
Definition to_dense (R : nat) (occ : list voxel) : grid :=
  map (fun x =>
    map (fun y =>
      map (fun z => if occupies occ (x, y, z) then 1%Q else 0%Q) (axis R))
      (axis R))
    (axis R).

Definition tag_batch (b : nat) (occ : list voxel) : list (Z * voxel) :=
  map (fun v => (Z.of_nat b, v)) occ.

(** Modelled from the spec: [_base_points_to_voxelgrids], the Rasterizer of
    section 4.3, which is not part of the module, applied to each point set
    of a batch of shape [(B, P, 3)].  The dense result has shape
    [(B, R, R, R)]; the sparse result lists the occupied indices of item [b]
    as rows [(b, x, y, z)]. *)
Definition rasterize (points : list (list point)) (resolution : Z)
    (return_sparse : bool) : result storage :=
  if return_sparse
  then Ok (SparseCOO
             (concat (imap (fun b pts => tag_batch b (occupied resolution pts))
                           points)))
  else Ok (Strided
             (map (fun pts => to_dense (Z.to_nat resolution)
                                (occupied resolution pts)) points)).

(** The entry point (section 6), with the helpers of the specification. *)
Definition convert_mesh_to_voxelgrid :=
  trianglemeshes_to_voxelgrids subdivide rasterize.

(** The scenario of the docstring (and of section 8). *)
Definition example_vertices : tensor (list (list point)) :=
  mkTensor float32 cpu [[(0, 0, 0); (1, 0, 0); (0, 0, 1)]]%Q.
Definition example_faces : list face := [(0, 1, 2)]%Z.
Definition example_origin : list point := [(0, 0, 0)]%Q.
Definition example_scale : list Q := [1%Q].
Definition example_grid : grid :=
  [ [ [1; 1; 1]; [0; 0; 0]; [0; 0; 0] ];
    [ [1; 1; 0]; [0; 0; 0]; [0; 0; 0] ];
    [ [1; 0; 0]; [0; 0; 0]; [0; 0; 0] ] ]%Q.


(** ** Notions used to state the properties *)

(** The normalisation formula of the docstring, [(v - origin) / scale], with
    the one scalar [s] on all three axes. *)
Definition normalized (o : point) (s : Q) (v : point) : point :=
  ((px v - px o) / s, (py v - py o) / s, (pz v - pz o) / s)%Q.

Definition is_minimum (m : Q) (l : list Q) : Prop :=
  In m l /\ forall x, In x l -> (m <= x)%Q.

Definition is_maximum (m : Q) (l : list Q) : Prop :=
  In m l /\ forall x, In x l -> (x <= m)%Q.

(** [o] is the per-axis minimum of the vertices [vs]. *)
Definition axis_minimum (vs : list point) (o : point) : Prop :=
  is_minimum (px o) (map px vs) /\ is_minimum (py o) (map py vs)
  /\ is_minimum (pz o) (map pz vs).

(** [s] is the maximum over the axes of (per-axis maximum of [vs] minus [o]). *)
Definition largest_extent (vs : list point) (o : point) (s : Q) : Prop :=
  exists M : point,
    is_maximum (px M) (map px vs) /\ is_maximum (py M) (map py vs)
    /\ is_maximum (pz M) (map pz vs)
    /\ is_maximum s [px M - px o; py M - py o; pz M - pz o]%Q.

(** The same extent as a function, for a non-empty list of vertices. *)
Definition coordinate_max (proj : point -> Q) (vs : list point) : Q :=
  match map proj vs with
  | [] => 0%Q
  | c :: cs => foldl Qmax c cs
  end.

Definition scale_from_origin (vs : list point) (o : point) : Q :=
  Qmax (Qmax (coordinate_max px vs - px o) (coordinate_max py vs - py o))
       (coordinate_max pz vs - pz o).

(** Shape [(R, R, R)] of a dense grid. *)
Definition cube (R : nat) (g : grid) : Prop :=
  length g = R /\
  Forall (fun plane => length plane = R /\ Forall (fun row => length row = R) plane) g.

Definition in_grid (resolution : Z) (v : voxel) : Prop :=
  let '(x, y, z) := v in
  (0 <= x < resolution /\ 0 <= y < resolution /\ 0 <= z < resolution)%Z.

Definition valid_face (V : nat) (f : face) : Prop :=
  let '(i, j, k) := f in
  (0 <= i < Z.of_nat V /\ 0 <= j < Z.of_nat V /\ 0 <= k < Z.of_nat V)%Z.

(** The result of one batch item: subdivide, rasterize, fit into the slot. *)
Definition item_grid
    (sub : list point -> list face -> Z -> result (list point))
    (rast : list (list point) -> Z -> bool -> result storage)
    (faces : list face) (resolution : Z) (return_sparse : bool)
    (item : list point) (g' : grid) : Prop :=
  exists points g,
    sub item faces resolution = Ok points /\
    rast [points] resolution return_sparse = Ok (Strided [g]) /\
    expand3 (Z.to_nat resolution) g = Ok g'.

(** The width of a voxel in normalised coordinates. *)
Definition voxel_width (resolution : Z) : Q := (1 / inject_Z resolution)%Q.

(** [4^d], the factor by which [d] rounds divide a squared edge length. *)
Definition four_pow (d : nat) : Q := inject_Z (4 ^ Z.of_nat d).

(** [resolution] is a positive integer. *)
Definition positive_int (o : pyobj) : Prop :=
  match o with
  | PyInt n => (0 < n)%Z
  | _ => False
  end.

(** The resolutions for which the result can be allocated. *)
Definition allocatable (R : Z) : Prop :=
  (0 <= R < int64_bound /\ R * R * R < int64_bound)%Z.

(** The entry [g[x][y][z]] of a dense grid. *)
Definition cell (g : grid) (x y z : nat) : option Q :=
  match g !! x with
  | Some plane =>
      match plane !! y with
      | Some row => row !! z
      | None => None
      end
  | None => None
  end.

(** The origin and scale in force after the two [is None] tests. *)
Definition resolved_origin (V : list (list point)) (origin : option (list point))
    (os : list point) : Prop :=
  match origin with
  | Some o => os = o
  | None => torch_min_dim1 V = Ok os
  end.

Definition resolved_scale (V : list (list point)) (os : list point)
    (scale : option (list Q)) (ss : list Q) : Prop :=
  match scale with
  | Some s => ss = s
  | None => exists max_val extent,
      torch_max_dim1 V = Ok max_val /\
      broadcast0 psub max_val os = Ok extent /\
      ss = map max_axes extent
  end.

(** The pipeline of one iteration as a function of the item's points:
    subdivide, rasterize, fit the value into a slot of shape [(R, R, R)]. *)
Definition item_result
    (sub : list point -> list face -> Z -> result (list point))
    (rast : list (list point) -> Z -> bool -> result storage)
    (faces : list face) (resolution : Z) (return_sparse : bool)
    (item : list point) : result grid :=
  points <- sub item faces resolution ;;
  voxelgrid <- rast [points] resolution return_sparse ;;
  match voxelgrid with
  | Strided [g] => expand3 (Z.to_nat resolution) g
  | _ => Raise RuntimeError
  end.

(** The normalised points of a batch, item by item. *)
Definition normalized_batch (V : list (list point)) (os : list point) (ss : list Q)
  : list (list point) :=
  zip_with (fun vs (os : point * Q) => map (normalized (fst os) (snd os)) vs)
           V (zip os ss).

(** Two points with the same coordinates. *)
Definition same_point (v w : point) : Prop :=
  (px v == px w /\ py v == py w /\ pz v == pz w)%Q.

(** The origin or scale entry of one item, for a call on that item alone. *)
Definition entry_of {A : Type} (supplied : option (list A)) (x : A)
  : option (list A) :=
  match supplied with
  | Some _ => Some [x]
  | None => None
  end.

(** A subdivider that refuses an item whose first point has a negative
    coordinate, used to exercise failures that depend on the item. *)
Definition picky_subdivide (item : list point) (faces : list face) (resolution : Z)
  : result (list point) :=
  match item with
  | p :: _ =>
      if Qle_bool 0 (px p)
      then (if Qle_bool 0 (py p) then subdivide item faces resolution
            else Raise IndexError)
      else Raise InvalidArgument
  | [] => subdivide item faces resolution
  end.

(** ** Generic facts: the error monad and the loop *)

Lemma bind_Ok {A B : Type} (m : result A) (k : A -> result B) (b : B) :
  bind m k = Ok b -> exists a, m = Ok a /\ k a = Ok b.
Proof. destruct m as [a|e]; simpl; intros H; [eauto | discriminate]. Qed.

Tactic Notation "inv_bind" hyp(H) "as" ident(a) ident(Ha) :=
  apply bind_Ok in H; destruct H as (a & Ha & H).

Lemma mapM_Ok {A B : Type} (f : A -> result B) (l : list A) (ys : list B) :
  mapM f l = Ok ys ->
  length ys = length l /\
  forall i x, l !! i = Some x -> exists y, ys !! i = Some y /\ f x = Ok y.
Proof.
  revert ys. induction l as [|x l IH]; simpl; intros ys H.
  - injection H as <-. split; [reflexivity | intros i x Hx; discriminate].
  - inv_bind H as y Hy. inv_bind H as ys' Hys'. injection H as <-.
    destruct (IH _ Hys') as [Hlen Hlk]. split; [simpl; congruence |].
    intros [|i] x' Hx'; simpl in *.
    + injection Hx' as <-. eauto.
    + eauto.
Qed.

Lemma mapM_total {A B : Type} (f : A -> result B) (g : A -> B) (l : list A) :
  Forall (fun x => f x = Ok (g x)) l -> mapM f l = Ok (map g l).
Proof.
  induction 1 as [|x l Hx _ IH]; simpl; [reflexivity |].
  rewrite Hx; simpl. rewrite IH; reflexivity.
Qed.

Lemma broadcast0_same {A B C : Type} (f : A -> B -> C) xs ys :
  length xs = length ys -> broadcast0 f xs ys = Ok (zip_with f xs ys).
Proof. intros H. unfold broadcast0. rewrite H, Nat.eqb_refl. reflexivity. Qed.

Lemma torch_zeros_Ok B R zs :
  torch_zeros B R = Ok zs <->
  allocatable R /\ zs = repeat (zeros3 (Z.to_nat R)) B.
Proof.
  unfold torch_zeros, allocatable.
  destruct ((R <? - int64_bound) || (int64_bound <=? R))%Z eqn:E1.
  { split; [discriminate |]. intros [[[H0 H1] _] _].
    apply orb_true_iff in E1. unfold int64_bound in *.
    destruct E1 as [E|E]; [apply Z.ltb_lt in E | apply Z.leb_le in E]; lia. }
  apply orb_false_iff in E1. destruct E1 as [E1 E1'].
  apply Z.ltb_ge in E1. apply Z.leb_gt in E1'.
  destruct (R <? 0)%Z eqn:E2.
  { apply Z.ltb_lt in E2. split; [discriminate | intros [[[H0 _] _] _]; lia]. }
  apply Z.ltb_ge in E2.
  destruct (int64_bound <=? R * R * R)%Z eqn:E3.
  { apply Z.leb_le in E3. split; [discriminate | intros [[_ H] _]; lia]. }
  apply Z.leb_gt in E3. split.
  - intros H. injection H as <-. repeat split; auto.
  - intros [_ ->]. reflexivity.
Qed.

Lemma torch_zeros_negative B R :
  (R < 0)%Z -> exists e, torch_zeros B R = Raise e.
Proof.
  intros HR. destruct (torch_zeros B R) as [zs|e] eqn:E; [| eauto].
  apply torch_zeros_Ok in E. destruct E as [[[H0 _] _] _]. lia.
Qed.

Lemma torch_zeros_allocatable B R :
  allocatable R -> torch_zeros B R = Ok (repeat (zeros3 (Z.to_nat R)) B).
Proof. intros H. apply torch_zeros_Ok. auto. Qed.

Section LoopFacts.

Variable sub : list point -> list face -> Z -> result (list point).
Variable rast : list (list point) -> Z -> bool -> result storage.
Variable batched_points : list (list point).
Variable faces : list face.
Variable resolution : Z.
Variable return_sparse : bool.

Let body := convert_item sub rast batched_points faces resolution return_sparse.

Lemma convert_item_Ok i st st' :
  body i st = Ok st' ->
  exists item g',
    batched_points !! i = Some item /\
    item_grid sub rast faces resolution return_sparse item g' /\
    i < length st /\ st' = <[i := g']> st.
Proof.
  unfold body, convert_item, getitem. intros H.
  inv_bind H as item' Hget. inv_bind H as points Hsub. inv_bind H as vg Hrast.
  destruct (batched_points !! i) as [item|] eqn:Hitem; [|discriminate].
  injection Hget as <-.
  unfold setitem in H.
  destruct (i <? length st) eqn:Hi; [|discriminate].
  destruct vg as [[|g [|? ?]]|]; try discriminate.
  inv_bind H as g' Hexp. injection H as <-.
  apply Nat.ltb_lt in Hi.
  exists item, g'. repeat split; auto.
  exists points, g. auto.
Qed.

Lemma convert_item_intro i st item g' :
  batched_points !! i = Some item ->
  item_grid sub rast faces resolution return_sparse item g' ->
  i < length st ->
  body i st = Ok (<[i := g']> st).
Proof.
  intros Hitem (points & g & Hsub & Hrast & Hexp) Hi.
  unfold body, convert_item, getitem. rewrite Hitem; simpl.
  rewrite Hsub; simpl. rewrite Hrast; simpl.
  unfold setitem. apply Nat.ltb_lt in Hi. rewrite Hi, Hexp. reflexivity.
Qed.

Lemma for_loop_Ok n : forall a st G,
  for_loop (seq a n) body st = Ok G ->
  length G = length st /\
  (forall j, j < a \/ a + n <= j -> G !! j = st !! j) /\
  (forall i, a <= i < a + n ->
     exists item g',
       batched_points !! i = Some item /\
       item_grid sub rast faces resolution return_sparse item g' /\
       G !! i = Some g').
Proof.
  induction n as [|n IH]; intros a st G H; simpl in H.
  - injection H as <-. repeat split; auto. intros i Hi; lia.
  - inv_bind H as st1 Hst1.
    destruct (convert_item_Ok _ _ _ Hst1) as (item & g' & Hitem & Hg & Hlt & ->).
    destruct (IH _ _ _ H) as (Hlen & Hout & Hin).
    rewrite length_insert in Hlen. split; [exact Hlen |]. split.
    + intros j Hj. rewrite Hout by lia.
      apply list_lookup_insert_ne. lia.
    + intros i Hi. destruct (decide (i = a)) as [->|Hne].
      * exists item, g'. repeat split; auto.
        rewrite Hout by lia. apply list_lookup_insert_eq. exact Hlt.
      * apply Hin. lia.
Qed.

End LoopFacts.

Section ConvertFacts.

Variable sub : list point -> list face -> Z -> result (list point).
Variable rast : list (list point) -> Z -> bool -> result storage.

Lemma convert_inv V faces R origin scale rs G :
  trianglemeshes_to_voxelgrids sub rast V faces (PyInt R) origin scale rs = Ok G ->
  exists os ss shifted bp gs,
    resolved_origin (t_data V) origin os /\
    resolved_scale (t_data V) os scale ss /\
    allocatable R /\
    broadcast0 (fun vs o => map (fun v => psub v o) vs) (t_data V) os = Ok shifted /\
    broadcast0 (fun vs s => map (fun v => pdiv v s) vs) shifted ss = Ok bp /\
    for_range (length (t_data V)) (convert_item sub rast bp faces R rs)
      (repeat (zeros3 (Z.to_nat R)) (length (t_data V))) = Ok gs /\
    G = mkTensor (t_dtype V) (t_device V) (Strided gs).
Proof.
  unfold trianglemeshes_to_voxelgrids. intros H.
  inv_bind H as os Hos. inv_bind H as ss Hss. inv_bind H as zs Hzs.
  inv_bind H as shifted Hshift. inv_bind H as bp Hbp. inv_bind H as gs Hgs.
  injection H as <-.
  apply torch_zeros_Ok in Hzs. destruct Hzs as [HR ->].
  exists os, ss, shifted, bp, gs. repeat split; auto; try apply HR.
  - unfold resolved_origin. destruct origin; [injection Hos as <-|]; auto.
  - unfold resolved_scale. destruct scale; [injection Hss as <-; auto|].
    inv_bind Hss as max_val Hmax. inv_bind Hss as extent Hext.
    injection Hss as <-. eauto.
Qed.

Lemma normalized_item (V : list (list point)) os ss shifted bp i vs o s :
  length os = length V -> length ss = length V ->
  broadcast0 (fun vs o => map (fun v => psub v o) vs) V os = Ok shifted ->
  broadcast0 (fun vs s => map (fun v => pdiv v s) vs) shifted ss = Ok bp ->
  V !! i = Some vs -> os !! i = Some o -> ss !! i = Some s ->
  bp !! i = Some (map (normalized o s) vs).
Proof.
  intros Hos Hss Hshift Hbp Hvs Ho Hs.
  rewrite broadcast0_same in Hshift by congruence. injection Hshift as <-.
  rewrite broadcast0_same in Hbp
    by (rewrite length_zip_with; lia).
  injection Hbp as <-.
  rewrite !lookup_zip_with, Hvs, Ho, Hs. simpl.
  rewrite map_map. reflexivity.
Qed.

End ConvertFacts.

(** ** Reductions: minimum and maximum along an axis *)

Lemma Qmin_cases (x y : Q) : Qmin x y = x \/ Qmin x y = y.
Proof.
  unfold Qmin, GenericMinMax.gmin. destruct (x ?= y)%Q; auto.
Qed.

Lemma Qmax_cases (x y : Q) : Qmax x y = x \/ Qmax x y = y.
Proof.
  unfold Qmax, GenericMinMax.gmax. destruct (x ?= y)%Q; auto.
Qed.

Lemma foldl_Qmin_minimum cs : forall c, is_minimum (foldl Qmin c cs) (c :: cs).
Proof.
  induction cs as [|x cs IH]; intros c; simpl.
  - split; [left; reflexivity |].
    intros y [<-|[]]. apply Qle_refl.
  - destruct (IH (Qmin c x)) as [Hin Hle]. split.
    + destruct Hin as [Heq|Hin]; [|right; right; exact Hin].
      rewrite <- Heq. destruct (Qmin_cases c x) as [->| ->]; simpl; auto.
    + intros y [<-|[<-|Hy]].
      * eapply Qle_trans; [apply Hle; left; reflexivity | apply Q.le_min_l].
      * eapply Qle_trans; [apply Hle; left; reflexivity | apply Q.le_min_r].
      * apply Hle. right. exact Hy.
Qed.

Lemma foldl_Qmax_maximum cs : forall c, is_maximum (foldl Qmax c cs) (c :: cs).
Proof.
  induction cs as [|x cs IH]; intros c; simpl.
  - split; [left; reflexivity |].
    intros y [<-|[]]. apply Qle_refl.
  - destruct (IH (Qmax c x)) as [Hin Hle]. split.
    + destruct Hin as [Heq|Hin]; [|right; right; exact Hin].
      rewrite <- Heq. destruct (Qmax_cases c x) as [->| ->]; simpl; auto.
    + intros y [<-|[<-|Hy]].
      * eapply Qle_trans; [apply Q.le_max_l | apply Hle; left; reflexivity].
      * eapply Qle_trans; [apply Q.le_max_r | apply Hle; left; reflexivity].
      * apply Hle. right. exact Hy.
Qed.

Lemma proj_foldl_pmin vs : forall v,
  px (foldl pmin v vs) = foldl Qmin (px v) (map px vs) /\
  py (foldl pmin v vs) = foldl Qmin (py v) (map py vs) /\
  pz (foldl pmin v vs) = foldl Qmin (pz v) (map pz vs).
Proof.
  induction vs as [|w vs IH]; intros v; simpl; [auto |].
  destruct (IH (pmin v w)) as (Hx & Hy & Hz).
  rewrite Hx, Hy, Hz. auto.
Qed.

Lemma proj_foldl_pmax vs : forall v,
  px (foldl pmax v vs) = foldl Qmax (px v) (map px vs) /\
  py (foldl pmax v vs) = foldl Qmax (py v) (map py vs) /\
  pz (foldl pmax v vs) = foldl Qmax (pz v) (map pz vs).
Proof.
  induction vs as [|w vs IH]; intros v; simpl; [auto |].
  destruct (IH (pmax v w)) as (Hx & Hy & Hz).
  rewrite Hx, Hy, Hz. auto.
Qed.

Lemma reduce_pmin_minimum vs o :
  reduce_points pmin vs = Ok o -> axis_minimum vs o.
Proof.
  destruct vs as [|v vs]; simpl; [discriminate |].
  intros H. injection H as <-.
  destruct (proj_foldl_pmin vs v) as (Hx & Hy & Hz).
  unfold axis_minimum. rewrite Hx, Hy, Hz. simpl.
  repeat split; apply foldl_Qmin_minimum.
Qed.

Lemma reduce_pmax_maximum vs M :
  reduce_points pmax vs = Ok M ->
  is_maximum (px M) (map px vs) /\ is_maximum (py M) (map py vs)
  /\ is_maximum (pz M) (map pz vs).
Proof.
  destruct vs as [|v vs]; simpl; [discriminate |].
  intros H. injection H as <-.
  destruct (proj_foldl_pmax vs v) as (Hx & Hy & Hz).
  rewrite Hx, Hy, Hz. simpl.
  repeat split; apply foldl_Qmax_maximum.
Qed.

Lemma max_axes_maximum (M o : point) :
  is_maximum (max_axes (psub M o)) [px M - px o; py M - py o; pz M - pz o]%Q.
Proof.
  exact (foldl_Qmax_maximum [py M - py o; pz M - pz o]%Q (px M - px o)%Q).
Qed.

Lemma reduce_pmax_scale vs M o :
  reduce_points pmax vs = Ok M -> max_axes (psub M o) = scale_from_origin vs o.
Proof.
  destruct vs as [|v vs]; simpl; [discriminate |].
  intros H. injection H as <-.
  destruct (proj_foldl_pmax vs v) as (Hx & Hy & Hz).
  unfold max_axes, psub, scale_from_origin, coordinate_max. simpl.
  unfold px at 1, py at 1, pz at 1. simpl.
  rewrite Hx, Hy, Hz. reflexivity.
Qed.

(** ** Shapes *)

Lemma mapM_Forall {A B : Type} (f : A -> result B) (P : B -> Prop) (l : list A) :
  (forall x y, f x = Ok y -> P y) ->
  forall ys, mapM f l = Ok ys -> Forall P ys.
Proof.
  intros HP. induction l as [|x l IH]; simpl; intros ys H.
  - injection H as <-. constructor.
  - inv_bind H as y Hy. inv_bind H as ys' Hys'. injection H as <-.
    constructor; eauto.
Qed.

Lemma expand_length {A : Type} (n : nat) (l l' : list A) :
  expand n l = Ok l' -> length l' = n.
Proof.
  unfold expand. destruct (length l =? n) eqn:E.
  - intros H. injection H as <-. apply Nat.eqb_eq. exact E.
  - destruct l as [|x [|? ?]]; try discriminate.
    intros H. injection H as <-. apply repeat_length.
Qed.

Lemma expand_id {A : Type} (l : list A) : expand (length l) l = Ok l.
Proof. unfold expand. rewrite Nat.eqb_refl. reflexivity. Qed.

Lemma expand_Forall {A : Type} (P : A -> Prop) (n : nat) (l l' : list A) :
  expand n l = Ok l' -> Forall P l -> Forall P l'.
Proof.
  unfold expand. destruct (length l =? n).
  - intros H. injection H as <-. auto.
  - destruct l as [|x [|? ?]]; try discriminate.
    intros H HP. injection H as <-.
    apply Forall_cons_1 in HP. destruct HP as [Hx _].
    apply List.Forall_forall. intros y Hy. apply repeat_spec in Hy. subst. exact Hx.
Qed.

Lemma expand3_cube R g g' : expand3 R g = Ok g' -> cube R g'.
Proof.
  unfold expand3. intros H. inv_bind H as planes Hplanes.
  split; [eapply expand_length; eauto |].
  eapply expand_Forall; [exact H |].
  eapply mapM_Forall; [| exact Hplanes].
  intros plane plane' Hp. simpl in Hp. inv_bind Hp as rows Hrows.
  split; [eapply expand_length; eauto |].
  eapply expand_Forall; [exact Hp |].
  eapply mapM_Forall; [| exact Hrows].
  intros row row' Hr. eapply expand_length; eauto.
Qed.

Lemma expand3_id R g : cube R g -> expand3 R g = Ok g.
Proof.
  intros [Hlen Hall]. unfold expand3.
  assert (Hin : mapM (fun plane => rows <- mapM (expand R) plane ;; expand R rows) g
                = Ok g).
  { rewrite <- (map_id g) at 2. apply mapM_total.
    eapply Forall_impl; [exact Hall |]. intros plane [Hp Hrows]. simpl.
    assert (Hr : mapM (expand R) plane = Ok plane).
    { rewrite <- (map_id plane) at 2. apply mapM_total.
      eapply Forall_impl; [exact Hrows |]. intros row Hr. simpl.
      rewrite <- Hr. apply expand_id. }
    rewrite Hr. simpl. rewrite <- Hp. apply expand_id. }
  rewrite Hin. simpl. rewrite <- Hlen. apply expand_id.
Qed.

(** ** Origin and scale in force *)

Lemma resolved_origin_length V origin os :
  resolved_origin V origin os ->
  (forall o, origin = Some o -> length o = length V) ->
  length os = length V.
Proof.
  destruct origin as [o|]; simpl.
  - intros -> H. apply H. reflexivity.
  - intros H _. apply (mapM_Ok _ _ _ H).
Qed.

Lemma resolved_scale_length V os scale ss :
  resolved_scale V os scale ss ->
  length os = length V ->
  (forall s, scale = Some s -> length s = length V) ->
  length ss = length V.
Proof.
  destruct scale as [s|]; simpl.
  - intros -> _ H. apply H. reflexivity.
  - intros (max_val & extent & Hmax & Hext & ->) Hos _.
    destruct (mapM_Ok _ _ _ Hmax) as [Hlen _].
    rewrite broadcast0_same in Hext by congruence. injection Hext as <-.
    rewrite length_map, length_zip_with. lia.
Qed.

(** ** Properties of [trianglemeshes_to_voxelgrids], for any pair of helpers *)

Section Claims.

Variable sub : list point -> list face -> Z -> result (list point).
Variable rast : list (list point) -> Z -> bool -> result storage.

Abbreviation convert := (trianglemeshes_to_voxelgrids sub rast).

(** C4.  Whenever the conversion returns, the grid of batch item [i] is the
    result of subdividing and rasterizing exactly the points
    [(v - o) / s], [v] ranging over the vertices of the item, with the single
    scalar [s] used on the three axes.  [o] and [s] are the item's entries of
    the supplied origin and scale; an omitted origin is the per-axis minimum
    of the item's vertices, an omitted scale is the maximum over the axes of
    (per-axis maximum minus [o]). *)
Theorem C4_normalized_points_and_defaults
    (vertices : tensor (list (list point))) (faces : list face) (resolution : Z)
    (origin : option (list point)) (scale : option (list Q))
    (return_sparse : bool) (G : tensor storage) :
  (forall os, origin = Some os -> length os = length (t_data vertices)) ->
  (forall ss, scale = Some ss -> length ss = length (t_data vertices)) ->
  convert vertices faces (PyInt resolution) origin scale return_sparse = Ok G ->
  exists gs, t_data G = Strided gs /\
    forall i vs, t_data vertices !! i = Some vs ->
      exists o s g,
        match origin with
        | Some os => os !! i = Some o
        | None => axis_minimum vs o
        end /\
        match scale with
        | Some ss => ss !! i = Some s
        | None => largest_extent vs o s
        end /\
        item_grid sub rast faces resolution return_sparse
          (map (normalized o s) vs) g /\
        gs !! i = Some g.
Proof.
  intros Horigin Hscale H.
  destruct (convert_inv _ _ _ _ _ _ _ _ _ H)
    as (os & ss & shifted & bp & gs & Hos & Hss & HR & Hshift & Hbp & Hloop & ->).
  pose proof (resolved_origin_length _ _ _ Hos Horigin) as Hlo.
  pose proof (resolved_scale_length _ _ _ _ Hss Hlo Hscale) as Hls.
  exists gs. split; [reflexivity |].
  intros i vs Hvs.
  pose proof (lookup_lt_Some _ _ _ Hvs) as Hi.
  destruct (lookup_lt_is_Some_2 os i ltac:(lia)) as [o Ho].
  destruct (lookup_lt_is_Some_2 ss i ltac:(lia)) as [s Hs].
  destruct (for_loop_Ok _ _ _ _ _ _ _ _ _ _ Hloop) as (_ & _ & Hin).
  destruct (Hin i ltac:(lia)) as (item & g & Hitem & Hg & Hgi).
  rewrite (normalized_item _ _ _ _ _ _ _ _ _ Hlo Hls Hshift Hbp Hvs Ho Hs) in Hitem.
  injection Hitem as <-.
  exists o, s, g. repeat split; auto.
  - destruct origin as [os'|]; simpl in Hos.
    + subst os'. exact Ho.
    + destruct (mapM_Ok _ _ _ Hos) as [_ Hlk].
      destruct (Hlk _ _ Hvs) as (o' & Ho' & Hred).
      rewrite Ho in Ho'. injection Ho' as <-.
      apply reduce_pmin_minimum. exact Hred.
  - destruct scale as [ss'|]; simpl in Hss.
    + subst ss'. exact Hs.
    + destruct Hss as (max_val & extent & Hmax & Hext & ->).
      destruct (mapM_Ok _ _ _ Hmax) as [Hlm Hlk].
      destruct (Hlk _ _ Hvs) as (M & HM & Hred).
      rewrite broadcast0_same in Hext by congruence. injection Hext as <-.
      rewrite list_lookup_fmap, lookup_zip_with, HM, Ho in Hs. simpl in Hs.
      injection Hs as <-.
      exists M. destruct (reduce_pmax_maximum _ _ Hred) as (Hx & Hy & Hz).
      repeat split; try apply Hx; try apply Hy; try apply Hz;
        apply max_axes_maximum.
Qed.

(** C5.  With origin and scale supplied, the grid of item [i] in the result
    for the whole batch is the grid returned for the one-item batch made of
    item [i] and of its origin and scale entries: it depends on nothing
    else in the batch. *)
Theorem C5_batch_independence
    (vertices : tensor (list (list point))) (faces : list face) (resolution : pyobj)
    (origin : list point) (scale : list Q) (return_sparse : bool)
    (G : tensor storage) (i : nat) (vs : list point) (o : point) (s : Q) :
  length origin = length (t_data vertices) ->
  length scale = length (t_data vertices) ->
  convert vertices faces resolution (Some origin) (Some scale) return_sparse = Ok G ->
  t_data vertices !! i = Some vs -> origin !! i = Some o -> scale !! i = Some s ->
  exists gs g,
    t_data G = Strided gs /\ gs !! i = Some g /\
    convert (mkTensor (t_dtype vertices) (t_device vertices) [vs]) faces resolution
            (Some [o]) (Some [s]) return_sparse
    = Ok (mkTensor (t_dtype vertices) (t_device vertices) (Strided [g])).
Proof.
  intros Hlo Hls H Hvs Ho Hs.
  destruct resolution as [R| |]; try discriminate.
  destruct (convert_inv _ _ _ _ _ _ _ _ _ H)
    as (os & ss & shifted & bp & gs & Hos & Hss & HR & Hshift & Hbp & Hloop & ->).
  simpl in Hos, Hss. subst os ss.
  pose proof (lookup_lt_Some _ _ _ Hvs) as Hi.
  destruct (for_loop_Ok _ _ _ _ _ _ _ _ _ _ Hloop) as (_ & _ & Hin).
  destruct (Hin i ltac:(lia)) as (item & g & Hitem & Hg & Hgi).
  rewrite (normalized_item _ _ _ _ _ _ _ _ _ Hlo Hls Hshift Hbp Hvs Ho Hs) in Hitem.
  injection Hitem as <-.
  exists gs, g. repeat split; auto.
  unfold trianglemeshes_to_voxelgrids. cbn [t_data t_dtype t_device bind length].
  rewrite (torch_zeros_allocatable 1 R HR). simpl.
  unfold for_range. simpl.
  rewrite (convert_item_intro sub rast _ faces R return_sparse 0
             [zeros3 (Z.to_nat R)] (map (normalized o s) vs) g).
  - reflexivity.
  - simpl. rewrite map_map. reflexivity.
  - exact Hg.
  - simpl. lia.
Qed.

(** C9.  Whenever the conversion returns, the result is a strided tensor of
    shape [(B, resolution, resolution, resolution)], [B] the number of batch
    items, and it carries the dtype and the device of [vertices]. *)
Theorem C9_result_shape_dtype_device
    (vertices : tensor (list (list point))) (faces : list face) (resolution : Z)
    (origin : option (list point)) (scale : option (list Q))
    (return_sparse : bool) (G : tensor storage) :
  convert vertices faces (PyInt resolution) origin scale return_sparse = Ok G ->
  t_dtype G = t_dtype vertices /\
  t_device G = t_device vertices /\
  (0 <= resolution)%Z /\
  exists gs, t_data G = Strided gs /\
    length gs = length (t_data vertices) /\
    Forall (cube (Z.to_nat resolution)) gs.
Proof.
  intros H.
  destruct (convert_inv _ _ _ _ _ _ _ _ _ H)
    as (os & ss & shifted & bp & gs & Hos & Hss & HR & Hshift & Hbp & Hloop & ->).
  destruct HR as [[HR _] _].
  simpl. repeat split; auto.
  destruct (for_loop_Ok _ _ _ _ _ _ _ _ _ _ Hloop) as (Hlen & _ & Hin).
  rewrite repeat_length in Hlen.
  exists gs. repeat split; auto.
  apply Forall_lookup. intros i g Hg.
  pose proof (lookup_lt_Some _ _ _ Hg) as Hi.
  destruct (Hin i ltac:(lia)) as (item & g' & _ & (pts & g0 & _ & _ & Hexp) & Hgi).
  rewrite Hg in Hgi. injection Hgi as <-.
  eapply expand3_cube; eauto.
Qed.

(** C10.  With an origin supplied and the scale omitted, whenever the call
    returns, the grid of item [i] is obtained from the points [(v - o) / s]
    where [o] is the item's entry of the supplied origin and [s] is the
    maximum over the axes of (per-axis maximum of the item's vertices minus
    [o]): the default scale is measured from the supplied origin, not from
    the per-axis minimum of the vertices. *)
Theorem C10_default_scale_uses_supplied_origin
    (vertices : tensor (list (list point))) (faces : list face) (resolution : Z)
    (origin : list point) (return_sparse : bool) (G : tensor storage) :
  length origin = length (t_data vertices) ->
  convert vertices faces (PyInt resolution) (Some origin) None return_sparse = Ok G ->
  exists gs, t_data G = Strided gs /\
    forall i vs o, t_data vertices !! i = Some vs -> origin !! i = Some o ->
      largest_extent vs o (scale_from_origin vs o) /\
      exists g, gs !! i = Some g /\
        item_grid sub rast faces resolution return_sparse
          (map (normalized o (scale_from_origin vs o)) vs) g.
Proof.
  intros Hlo H.
  destruct (convert_inv _ _ _ _ _ _ _ _ _ H)
    as (os & ss & shifted & bp & gs & Hos & Hss & HR & Hshift & Hbp & Hloop & ->).
  simpl in Hos. subst os.
  destruct Hss as (max_val & extent & Hmax & Hext & ->).
  destruct (mapM_Ok _ _ _ Hmax) as [Hlm Hlk].
  rewrite broadcast0_same in Hext by congruence. injection Hext as <-.
  exists gs. split; [reflexivity |].
  intros i vs o Hvs Ho.
  destruct (Hlk _ _ Hvs) as (M & HM & Hred).
  pose proof (reduce_pmax_scale vs M o Hred) as Hscale.
  split.
  - exists M. destruct (reduce_pmax_maximum _ _ Hred) as (Hx & Hy & Hz).
    rewrite <- Hscale.
    repeat split; try apply Hx; try apply Hy; try apply Hz; apply max_axes_maximum.
  - pose proof (lookup_lt_Some _ _ _ Hvs) as Hi.
    destruct (for_loop_Ok _ _ _ _ _ _ _ _ _ _ Hloop) as (_ & _ & Hin).
    destruct (Hin i ltac:(lia)) as (item & g & Hitem & Hg & Hgi).
    assert (Hs : map max_axes (zip_with psub max_val origin) !! i
                 = Some (scale_from_origin vs o)).
    { rewrite list_lookup_fmap, lookup_zip_with, HM, Ho. simpl.
      rewrite Hscale. reflexivity. }
    assert (Hls : length (map max_axes (zip_with psub max_val origin))
                  = length (t_data vertices))
      by (rewrite length_map, length_zip_with; lia).
    rewrite (normalized_item _ _ _ _ _ _ _ _ _ Hlo Hls Hshift Hbp Hvs Ho Hs) in Hitem.
    injection Hitem as <-.
    exists g. split; assumption.
Qed.

End Claims.

(** ** The conversion with the helpers of the specification *)

(** C1.  The scenario of the docstring: one triangle [(0,0,0), (1,0,0),
    (0,0,1)], resolution 3, origin 0, scale 1.  The result is one 3x3x3 grid
    whose cells at 1 are, in layer x=0, (y,z) = (0,0), (0,1), (0,2); in layer
    x=1, (0,0), (0,1); in layer x=2, (0,0); every other cell is 0. *)
Theorem C1_docstring_scenario :
  convert_mesh_to_voxelgrid example_vertices example_faces (PyInt 3)
    (Some example_origin) (Some example_scale) false
  = Ok (mkTensor float32 cpu (Strided [example_grid]))
  /\ example_grid
     = to_dense 3 [(0, 0, 0); (0, 0, 1); (0, 0, 2);
                   (1, 0, 0); (1, 0, 1);
                   (2, 0, 0)]%Z.
Proof. split; vm_compute; reflexivity. Qed.

Lemma rasterize_sparse points resolution :
  rasterize points resolution true
  = Ok (SparseCOO (concat (imap (fun b pts => tag_batch b (occupied resolution pts))
                                points))).
Proof. reflexivity. Qed.

Lemma rasterize_dense points resolution :
  rasterize points resolution false
  = Ok (Strided (map (fun pts => to_dense (Z.to_nat resolution)
                                   (occupied resolution pts)) points)).
Proof. reflexivity. Qed.

(** C2.  In sparse mode the function never returns a sparse tensor: the only
    calls that return are those on an empty batch, and they return the empty
    strided tensor; on the docstring scenario the call raises, because the
    sparse grid of the first item cannot be stored into [voxelgrids]. *)
Theorem C2_sparse_mode_returns_no_sparse_tensor :
  (forall vertices faces resolution origin scale G,
      convert_mesh_to_voxelgrid vertices faces resolution origin scale true = Ok G ->
      t_data vertices = [] /\ t_data G = Strided [])
  /\ convert_mesh_to_voxelgrid example_vertices example_faces (PyInt 3)
       (Some example_origin) (Some example_scale) true
     = Raise RuntimeError.
Proof.
  split; [| vm_compute; reflexivity].
  intros vertices faces resolution origin scale G H.
  destruct resolution as [R| |]; try discriminate.
  destruct (convert_inv _ _ _ _ _ _ _ _ _ H)
    as (os & ss & shifted & bp & gs & Hos & Hss & HR & Hshift & Hbp & Hloop & ->).
  destruct (for_loop_Ok _ _ _ _ _ _ _ _ _ _ Hloop) as (Hlen & _ & Hin).
  rewrite repeat_length in Hlen. simpl.
  destruct (t_data vertices) as [|vs V] eqn:HV.
  - destruct gs; [auto | discriminate].
  - destruct (Hin 0 ltac:(simpl; lia))
      as (item & g & _ & (pts & g0 & _ & Hrast & _) & _).
    rewrite rasterize_sparse in Hrast. discriminate.
Qed.

Lemma C2_sparse_mode_witness :
  convert_mesh_to_voxelgrid (mkTensor float32 cpu []) example_faces (PyInt 3)
    (Some []) (Some []) true = Ok (mkTensor float32 cpu (Strided []))
  /\ t_data (mkTensor float32 cpu (@nil (list point))) = []
  /\ t_data (mkTensor float32 cpu (Strided [])) = Strided [].
Proof.
  split; [vm_compute; reflexivity |].
  apply (proj1 C2_sparse_mode_returns_no_sparse_tensor
           (mkTensor float32 cpu []) example_faces (PyInt 3) (Some []) (Some [])
           (mkTensor float32 cpu (Strided []))).
  vm_compute; reflexivity.
Defined.

(** *** The resolution *)

(** A negative resolution never gets past the allocation of [voxelgrids]. *)
Lemma negative_resolution_raises sub rast vertices faces R origin scale return_sparse :
  (R < 0)%Z ->
  exists e,
    trianglemeshes_to_voxelgrids sub rast vertices faces (PyInt R) origin scale
      return_sparse = Raise e.
Proof.
  intros HR. unfold trianglemeshes_to_voxelgrids.
  destruct (match origin with
            | Some o => Ok o
            | None => torch_min_dim1 (t_data vertices)
            end) as [os|e]; cbn [bind]; [| eauto].
  destruct (match scale with
            | Some s => Ok s
            | None => _
            end) as [ss|e]; cbn [bind]; [| eauto].
  destruct (torch_zeros_negative (length (t_data vertices)) R HR) as [e ->].
  cbn [bind]. eauto.
Qed.

(** C3, as stated, fails in both directions: on an empty batch a resolution
    of zero is accepted and the empty tensor of shape [(0, 0, 0, 0)] is
    returned; and a call with the positive resolution 3 raises when the
    origin has three entries for a batch of two items. *)
Lemma C3_counterexample_zero_resolution :
  (~ positive_int (PyInt 0) /\
   convert_mesh_to_voxelgrid (mkTensor float32 cpu []) example_faces (PyInt 0)
     (Some []) (Some []) false
   = Ok (mkTensor float32 cpu (Strided [])))
  /\
  (positive_int (PyInt 3) /\
   convert_mesh_to_voxelgrid
     (mkTensor float32 cpu (t_data example_vertices ++ t_data example_vertices))
     example_faces (PyInt 3) (Some [(0, 0, 0); (0, 0, 0); (0, 0, 0)]%Q)
     (Some [1; 1]%Q) false
   = Raise RuntimeError).
Proof.
  split; (split; [simpl; lia | vm_compute; reflexivity]).
Qed.

(** C3, amended.  Whatever the helpers, the function raises a [TypeError]
    whenever [resolution] is not an [int], and every call with a negative
    [int] resolution fails. *)
Theorem C3_resolution_errors
    (sub : list point -> list face -> Z -> result (list point))
    (rast : list (list point) -> Z -> bool -> result storage)
    (vertices : tensor (list (list point))) (faces : list face) (resolution : pyobj)
    (origin : option (list point)) (scale : option (list Q)) (return_sparse : bool) :
  (isinstance_int resolution = false ->
   trianglemeshes_to_voxelgrids sub rast vertices faces resolution origin scale
     return_sparse = Raise TypeError)
  /\ (forall n, resolution = PyInt n -> (n < 0)%Z ->
      exists e,
        trianglemeshes_to_voxelgrids sub rast vertices faces resolution origin scale
          return_sparse = Raise e).
Proof.
  split.
  - destruct resolution as [R| |]; simpl; [discriminate | reflexivity | reflexivity].
  - intros n -> Hn. apply negative_resolution_raises. exact Hn.
Qed.

Lemma C3_resolution_errors_witness :
  trianglemeshes_to_voxelgrids subdivide rasterize example_vertices example_faces
    (PyFloat 3) (Some example_origin) (Some example_scale) false = Raise TypeError
  /\ exists e,
       trianglemeshes_to_voxelgrids subdivide rasterize example_vertices
         example_faces (PyInt (-2)) (Some example_origin) (Some example_scale)
         false = Raise e.
Proof.
  split.
  - apply (proj1 (C3_resolution_errors subdivide rasterize example_vertices
                    example_faces (PyFloat 3) (Some example_origin)
                    (Some example_scale) false)).
    reflexivity.
  - apply (proj2 (C3_resolution_errors subdivide rasterize example_vertices
                    example_faces (PyInt (-2)) (Some example_origin)
                    (Some example_scale) false) (-2)%Z).
    + reflexivity.
    + lia.
Defined.

(** *** The helpers of the specification are total on well-formed meshes *)

Lemma mapM_exists {A B : Type} (f : A -> result B) (l : list A) :
  Forall (fun x => exists y, f x = Ok y) l -> exists ys, mapM f l = Ok ys.
Proof.
  induction 1 as [|x l [y Hy] _ [ys IH]]; simpl; [eauto |].
  rewrite Hy; simpl. rewrite IH; simpl. eauto.
Qed.

Lemma vertex_at_valid vertices i :
  (0 <= i < Z.of_nat (length vertices))%Z ->
  exists v, vertex_at vertices i = Ok v /\ In v vertices.
Proof.
  intros Hi. unfold vertex_at, getitem.
  replace ((0 <=? i)%Z && (i <? Z.of_nat (length vertices))%Z) with true
    by (symmetry; apply andb_true_iff; split; [apply Z.leb_le | apply Z.ltb_lt]; lia).
  destruct (lookup_lt_is_Some_2 vertices (Z.to_nat i) ltac:(lia)) as [v Hv].
  rewrite Hv. exists v. split; [reflexivity |].
  apply list_elem_of_In. eapply list_elem_of_lookup_2. exact Hv.
Qed.

Lemma face_triangle_valid vertices f :
  valid_face (length vertices) f -> exists t, face_triangle vertices f = Ok t.
Proof.
  destruct f as [[i j] k]. intros (Hi & Hj & Hk). unfold face_triangle.
  destruct (vertex_at_valid vertices i Hi) as (a & -> & _).
  destruct (vertex_at_valid vertices j Hj) as (b & -> & _).
  destruct (vertex_at_valid vertices k Hk) as (c & -> & _).
  simpl. eauto.
Qed.

Lemma subdivide_total vertices faces resolution :
  Forall (valid_face (length vertices)) faces ->
  exists triangles,
    mapM (face_triangle vertices) faces = Ok triangles /\
    subdivide vertices faces resolution
    = Ok (vertices ++ flat_map (face_points resolution) triangles).
Proof.
  intros Hf.
  destruct (mapM_exists (face_triangle vertices) faces) as [ts Hts].
  { eapply Forall_impl; [exact Hf |]. intros f. apply face_triangle_valid. }
  exists ts. split; [exact Hts |]. unfold subdivide. rewrite Hts. reflexivity.
Qed.

Lemma axis_length R : length (axis R) = R.
Proof. unfold axis. rewrite length_map, length_seq. reflexivity. Qed.

Lemma to_dense_cube R occ : cube R (to_dense R occ).
Proof.
  unfold cube, to_dense. rewrite length_map, axis_length. split; [reflexivity |].
  apply Forall_map, Forall_forall. intros x _. simpl.
  rewrite length_map, axis_length. split; [reflexivity |].
  apply Forall_map, Forall_forall. intros y _. simpl.
  rewrite length_map, axis_length. reflexivity.
Qed.

Lemma item_grid_total faces resolution item :
  Forall (valid_face (length item)) faces ->
  exists g, item_grid subdivide rasterize faces resolution false item g.
Proof.
  intros Hf. destruct (subdivide_total item faces resolution Hf) as (ts & _ & Hsub).
  exists (to_dense (Z.to_nat resolution)
            (occupied resolution (item ++ flat_map (face_points resolution) ts))).
  eexists. eexists. split; [exact Hsub |].
  split; [reflexivity |].
  apply expand3_id. apply to_dense_cube.
Qed.


(** *** The Rasterizer *)

Lemma voxel_eqb_eq u v : voxel_eqb u v = true <-> u = v.
Proof.
  destruct u as [[a b] c], v as [[a' b'] c']. unfold voxel_eqb.
  rewrite !andb_true_iff, !Z.eqb_eq. split.
  - intros [[-> ->] ->]. reflexivity.
  - intros H. injection H as -> -> ->. auto.
Qed.

Lemma occupies_In occ v : occupies occ v = true <-> In v occ.
Proof.
  unfold occupies. rewrite existsb_exists. split.
  - intros (u & Hu & E). apply voxel_eqb_eq in E. subst. exact Hu.
  - intros H. exists v. split; [exact H | apply voxel_eqb_eq; reflexivity].
Qed.

Lemma distinct_sound l : forall seen v, In v (distinct seen l) -> In v l.
Proof.
  induction l as [|u l IH]; intros seen v; simpl; [auto |].
  destruct (occupies seen u); simpl.
  - intros H. right. eapply IH; eauto.
  - intros [->|H]; [left; reflexivity | right; eapply IH; eauto].
Qed.

Lemma distinct_complete l : forall seen v,
  In v l -> In v seen \/ In v (distinct seen l).
Proof.
  induction l as [|u l IH]; intros seen v; simpl; [intros [] |].
  intros [->|H].
  - destruct (occupies seen v) eqn:E.
    + left. apply occupies_In. exact E.
    + right. left. reflexivity.
  - destruct (occupies seen u) eqn:E.
    + apply IH. exact H.
    + destruct (IH (u :: seen) v H) as [[->|Hs]|Hd]; simpl; auto.
Qed.

Lemma occupied_iff resolution pts v :
  In v (occupied resolution pts) <-> exists p, In p pts /\ v = voxel_of resolution p.
Proof.
  unfold occupied. split.
  - intros H. apply distinct_sound in H. apply in_map_iff in H.
    destruct H as (p & <- & Hp). eauto.
  - intros (p & Hp & ->).
    destruct (distinct_complete (map (voxel_of resolution) pts) []
                (voxel_of resolution p)) as [[]|H]; [| exact H].
    apply in_map. exact Hp.
Qed.

Lemma voxel_index_range resolution c :
  (0 < resolution)%Z -> (0 <= voxel_index resolution c < resolution)%Z.
Proof. unfold voxel_index. lia. Qed.

Lemma Qfloor_at_one resolution c :
  (c == 1)%Q -> Qfloor (c * inject_Z resolution) = resolution.
Proof.
  intros Hc.
  assert (E : (c * inject_Z resolution == inject_Z resolution)%Q)
    by (rewrite Hc; ring).
  rewrite (Qfloor_comp _ _ E). apply Qfloor_Z.
Qed.

Lemma map_lookup_Some {A B : Type} (f : A -> B) (l : list A) (i : nat) (a : A) :
  l !! i = Some a -> map f l !! i = Some (f a).
Proof.
  intros H. change (map f l) with (f <$> l). rewrite list_lookup_fmap, H. reflexivity.
Qed.

Lemma axis_lookup R x : x < R -> axis R !! x = Some (Z.of_nat x).
Proof.
  intros Hx. unfold axis. rewrite list_lookup_fmap, lookup_seq_lt by exact Hx.
  reflexivity.
Qed.

Lemma cell_to_dense R occ x y z :
  x < R -> y < R -> z < R ->
  cell (to_dense R occ) x y z
  = Some (if occupies occ (Z.of_nat x, Z.of_nat y, Z.of_nat z) then 1%Q else 0%Q).
Proof.
  intros Hx Hy Hz. unfold cell, to_dense, grid.
  rewrite (map_lookup_Some _ _ _ _ (axis_lookup R x Hx)).
  rewrite (map_lookup_Some _ _ _ _ (axis_lookup R y Hy)).
  rewrite (map_lookup_Some _ _ _ _ (axis_lookup R z Hz)). reflexivity.
Qed.

Lemma cell_to_dense_one R occ x y z :
  x < R -> y < R -> z < R ->
  cell (to_dense R occ) x y z = Some 1%Q
  <-> In (Z.of_nat x, Z.of_nat y, Z.of_nat z) occ.
Proof.
  intros Hx Hy Hz. rewrite (cell_to_dense R occ x y z Hx Hy Hz).
  rewrite <- occupies_In.
  destruct (occupies occ _); split; intros H; try reflexivity; discriminate.
Qed.

(** C7.  For a positive resolution, rasterization of a point set returns, in
    dense and in sparse mode.  Writing [idx c] for [floor(c * resolution)]
    clamped into [[0, resolution - 1]]: the occupied voxels, listed by the
    sparse result, are exactly the triples [(idx x, idx y, idx z)] of the
    points; they lie in [[0, resolution)] on each axis; the dense result is a
    cube of side [resolution] whose cells at 1 are exactly the occupied voxels;
    and a coordinate equal to 1, for which [floor(c * resolution)] is the
    out-of-range [resolution], gets the index [resolution - 1]. *)
Theorem C7_boundary_is_clamped (resolution : Z) (pts : list point) :
  (0 < resolution)%Z ->
  let idx := fun c : Q =>
    Z.max 0 (Z.min (resolution - 1) (Qfloor (c * inject_Z resolution))) in
  exists g rows,
    rasterize [pts] resolution false = Ok (Strided [g]) /\
    rasterize [pts] resolution true = Ok (SparseCOO rows) /\
    cube (Z.to_nat resolution) g /\
    (forall b v, In (b, v) rows <->
       b = 0%Z /\
       exists p, In p pts /\ v = (idx (px p), idx (py p), idx (pz p))) /\
    (forall b v, In (b, v) rows -> in_grid resolution v) /\
    (forall x y z : nat,
       (Z.of_nat x < resolution)%Z -> (Z.of_nat y < resolution)%Z ->
       (Z.of_nat z < resolution)%Z ->
       (cell g x y z = Some 1%Q
        <-> In (0%Z, (Z.of_nat x, Z.of_nat y, Z.of_nat z)) rows) /\
       (cell g x y z = Some 0%Q
        <-> ~ In (0%Z, (Z.of_nat x, Z.of_nat y, Z.of_nat z)) rows)) /\
    (forall c, (c == 1)%Q ->
       Qfloor (c * inject_Z resolution) = resolution /\
       idx c = (resolution - 1)%Z).
Proof.
  intros HR idx.
  assert (Hrows : forall b v,
             In (b, v) (concat (imap (fun b pts => tag_batch b (occupied resolution pts))
                                     [pts]))
             <-> b = 0%Z /\ In v (occupied resolution pts)).
  { intros b v. simpl. rewrite app_nil_r. unfold tag_batch. rewrite in_map_iff.
    split.
    - intros (v' & E & Hv'). injection E as <- <-. auto.
    - intros [-> Hv]. exists v. auto. }
  exists (to_dense (Z.to_nat resolution) (occupied resolution pts)).
  eexists. split; [reflexivity |]. split; [reflexivity |].
  split; [apply to_dense_cube |].
  split; [| split; [| split]].
  - intros b v. rewrite Hrows, occupied_iff. reflexivity.
  - intros b v H. apply Hrows in H. destruct H as [_ H].
    apply occupied_iff in H. destruct H as (p & _ & ->).
    unfold voxel_of, in_grid. repeat split; apply voxel_index_range; exact HR.
  - intros x y z Hx Hy Hz.
    assert (Hc := cell_to_dense (Z.to_nat resolution) (occupied resolution pts)
                    x y z ltac:(lia) ltac:(lia) ltac:(lia)).
    rewrite Hc, !Hrows, <- occupies_In.
    destruct (occupies _ _); (split; [split; [intros H | intros [_ H]]
                                      | split; [intros H | intros H]]);
      first [ reflexivity
            | discriminate H
            | split; reflexivity
            | intros [_ H']; discriminate H'
            | exfalso; apply H; split; reflexivity ].
  - intros c Hc. pose proof (Qfloor_at_one resolution c Hc) as Hf.
    split; [exact Hf |]. unfold idx. rewrite Hf. lia.
Qed.

(** The vertices of the docstring triangle at resolution 3: the vertex
    (1,0,0) occupies the cell [2][0][0] and the vertex (0,0,1) the cell
    [0][0][2], and the cell [1][0][0] stays at 0. *)
Lemma C7_boundary_is_clamped_witness :
  exists g,
    rasterize [[(0, 0, 0); (1, 0, 0); (0, 0, 1)]%Q] 3 false = Ok (Strided [g])
    /\ cell g 2 0 0 = Some 1%Q /\ cell g 0 0 2 = Some 1%Q
    /\ cell g 1 0 0 = Some 0%Q.
Proof.
  destruct (C7_boundary_is_clamped 3 [(0, 0, 0); (1, 0, 0); (0, 0, 1)]%Q
              ltac:(lia))
    as (g & rows & Hd & Hs & _ & Hrows & _ & Hcell & _).
  exists g. split; [exact Hd |].
  split; [| split].
  - apply (Hcell 2 0 0); [lia | lia | lia |]. apply Hrows. split; [reflexivity |].
    exists (1, 0, 0)%Q. split; [simpl; auto | reflexivity].
  - apply (Hcell 0 0 2); [lia | lia | lia |]. apply Hrows. split; [reflexivity |].
    exists (0, 0, 1)%Q. split; [simpl; auto | reflexivity].
  - apply (Hcell 1 0 0); [lia | lia | lia |]. intros H. apply Hrows in H.
    destruct H as (_ & p & Hp & E).
    destruct Hp as [<-|[<-|[<-|[]]]]; vm_compute in E; discriminate E.
Defined.

(** *** The Subdivider *)

Lemma quarter_edge (e' e L : Q) : (e' * 4 == e)%Q -> (e <= L)%Q -> (e' * 4 <= L)%Q.
Proof. intros -> H. exact H. Qed.

Lemma longest_edge_ge (a b c : point) :
  (edge_sq a b <= longest_edge_sq (a, b, c))%Q /\
  (edge_sq b c <= longest_edge_sq (a, b, c))%Q /\
  (edge_sq c a <= longest_edge_sq (a, b, c))%Q.
Proof.
  unfold longest_edge_sq. repeat split.
  - eapply Qle_trans; [apply Q.le_max_l | apply Q.le_max_l].
  - eapply Qle_trans; [apply Q.le_max_r | apply Q.le_max_l].
  - apply Q.le_max_r.
Qed.

Lemma longest_edge_lub (a b c : point) (L : Q) :
  (edge_sq a b <= L)%Q -> (edge_sq b c <= L)%Q -> (edge_sq c a <= L)%Q ->
  (longest_edge_sq (a, b, c) <= L)%Q.
Proof.
  intros H1 H2 H3. unfold longest_edge_sq.
  apply Q.max_lub; [apply Q.max_lub |]; assumption.
Qed.

Lemma longest_edge_In t e : In e (edges_sq t) -> (e <= longest_edge_sq t)%Q.
Proof.
  destruct t as [[a b] c]. destruct (longest_edge_ge a b c) as (H1 & H2 & H3).
  intros [<-|[<-|[<-|[]]]]; assumption.
Qed.

Ltac edge_algebra :=
  unfold edge_sq, midpoint, px, py, pz; simpl; field.

Ltac sub_edge a b c :=
  destruct (longest_edge_ge a b c) as (?H1 & ?H2 & ?H3);
  first
    [ apply (quarter_edge _ (edge_sq a b)); [edge_algebra | assumption]
    | apply (quarter_edge _ (edge_sq b c)); [edge_algebra | assumption]
    | apply (quarter_edge _ (edge_sq c a)); [edge_algebra | assumption] ].

(** One round divides the squared length of the longest edge by 4. *)
Lemma split_quarters t t' :
  In t' (split t) -> (longest_edge_sq t' * 4 <= longest_edge_sq t)%Q.
Proof.
  destruct t as [[a b] c]. simpl.
  assert (Hlub : forall u v w L,
             (edge_sq u v * 4 <= L)%Q -> (edge_sq v w * 4 <= L)%Q ->
             (edge_sq w u * 4 <= L)%Q -> (longest_edge_sq (u, v, w) * 4 <= L)%Q).
  { intros u v w L H1 H2 H3.
    assert (longest_edge_sq (u, v, w) <= L * (1 # 4))%Q; [| lra].
    apply longest_edge_lub; lra. }
  intros [<-|[<-|[<-|[<-|[]]]]]; apply Hlub; sub_edge a b c.
Qed.

Lemma four_pow_S d : (four_pow (S d) == 4 * four_pow d)%Q.
Proof.
  unfold four_pow. rewrite Nat2Z.inj_succ, Z.pow_succ_r by lia.
  rewrite inject_Z_mult. reflexivity.
Qed.

Lemma four_pow_pos d : (0 < four_pow d)%Q.
Proof.
  unfold four_pow. rewrite <- (Zlt_Qlt 0). apply Z.pow_pos_nonneg; lia.
Qed.

Lemma refine_bound d : forall ts L,
  Forall (fun t => (longest_edge_sq t <= L)%Q) ts ->
  Forall (fun t => (longest_edge_sq t * four_pow d <= L)%Q) (refine d ts).
Proof.
  induction d as [|d IH]; intros ts L H; simpl.
  - eapply Forall_impl; [exact H |]. intros t Ht. simpl in Ht.
    unfold four_pow. simpl. rewrite Qmult_1_r. exact Ht.
  - specialize (IH (flat_map split ts) (L * (1 # 4))%Q).
    eapply Forall_impl; [apply IH |].
    + apply List.Forall_forall. intros t' Ht'. apply in_flat_map in Ht'.
      destruct Ht' as (t & Ht & Hsplit).
      pose proof (split_quarters _ _ Hsplit) as Hq.
      rewrite List.Forall_forall in H. pose proof (H _ Ht) as HL. simpl in HL.
      lra.
    + intros t' Ht'. simpl in Ht'. rewrite four_pow_S. lra.
Qed.

Lemma four_pow_rounds (m : Z) :
  (0 <= m)%Z -> four_pow (Z.to_nat m) = inject_Z (2 ^ (2 * m)).
Proof.
  intros Hm. unfold four_pow. rewrite Z2Nat.id by exact Hm.
  rewrite Z.pow_mul_r by lia. reflexivity.
Qed.

(** The number of rounds is enough: [L^2 * resolution^2 <= 4^rounds]. *)
Lemma rounds_enough resolution t :
  (longest_edge_sq t * inject_Z (resolution * resolution)
   <= four_pow (rounds_for resolution t))%Q.
Proof.
  unfold rounds_for.
  set (q := (longest_edge_sq t * inject_Z (resolution * resolution))%Q).
  set (n := Qceiling q). set (k := Z.log2_up n).
  pose proof (Z.log2_up_nonneg n) as Hk. fold k in Hk.
  assert (Hm : (0 <= (k + 1) / 2)%Z) by (apply Z.div_pos; lia).
  rewrite (four_pow_rounds _ Hm).
  eapply Qle_trans; [apply Qle_ceiling |]. fold n.
  rewrite <- Zle_Qle.
  assert (Hn : (n <= 2 ^ k)%Z).
  { destruct (Z_lt_le_dec 1 n) as [H1|H1].
    - apply Z.log2_up_spec. exact H1.
    - unfold k. rewrite (Z.log2_up_eqn0 n H1). simpl. exact H1. }
  eapply Z.le_trans; [exact Hn |].
  apply Z.pow_le_mono_r; [lia |].
  Z.to_euclidean_division_equations. lia.
Qed.

(** The number of rounds is the least one: one round less leaves the longest
    edge above the voxel width, [4^(rounds-1) < L^2 * resolution^2]. *)
Lemma rounds_least resolution t d :
  rounds_for resolution t = S d ->
  (four_pow d < longest_edge_sq t * inject_Z (resolution * resolution))%Q.
Proof.
  unfold rounds_for. cbv zeta.
  set (q := (longest_edge_sq t * inject_Z (resolution * resolution))%Q).
  set (n := Qceiling q). set (k := Z.log2_up n).
  intros Hd.
  assert (Hm : ((k + 1) / 2 = Z.of_nat d + 1)%Z)
    by (apply (f_equal Z.of_nat) in Hd; rewrite Z2Nat.id in Hd;
        [lia | apply Z.div_pos; [pose proof (Z.log2_up_nonneg n); lia | lia]]).
  assert (H1 : (1 < n)%Z).
  { destruct (Z_lt_le_dec 1 n) as [H1|H1]; [exact H1 |].
    unfold k in Hm. rewrite (Z.log2_up_eqn0 n H1) in Hm.
    change ((0 + 1) / 2)%Z with 0%Z in Hm. lia. }
  destruct (Z.log2_up_spec n H1) as [Hlow _]. fold k in Hlow.
  eapply Qle_lt_trans; [| apply Qceiling_lt]. fold n.
  unfold four_pow. rewrite <- Zle_Qle.
  assert (Hpow : (4 ^ Z.of_nat d = 2 ^ (2 * Z.of_nat d))%Z)
    by (rewrite Z.pow_mul_r by lia; reflexivity).
  rewrite Hpow.
  assert (Hle : (2 ^ (2 * Z.of_nat d) <= 2 ^ Z.pred k)%Z).
  { apply Z.pow_le_mono_r; [lia |].
    clear Hlow. Z.to_euclidean_division_equations. lia. }
  lia.
Qed.

Lemma rounds_for_longest resolution t u :
  (longest_edge_sq u == longest_edge_sq t)%Q ->
  rounds_for resolution u = rounds_for resolution t.
Proof.
  intros H. unfold rounds_for.
  rewrite (Qceiling_comp
             (longest_edge_sq u * inject_Z (resolution * resolution))
             (longest_edge_sq t * inject_Z (resolution * resolution)));
    [reflexivity | rewrite H; reflexivity].
Qed.

Lemma all_rounds_first d : forall ts t, In t ts -> In t (all_rounds d ts).
Proof.
  destruct d; intros ts t H; simpl; [exact H | apply in_or_app; left; exact H].
Qed.

Lemma all_rounds_last d : forall ts t, In t (refine d ts) -> In t (all_rounds d ts).
Proof.
  induction d as [|d IH]; intros ts t H; simpl in *; [exact H |].
  apply in_or_app. right. apply IH. exact H.
Qed.

(** After the rounds of a face, no edge is longer than a voxel. *)
Lemma refined_edges_fit resolution t t' e :
  (0 < resolution)%Z ->
  In t' (refine (rounds_for resolution t) [t]) ->
  In e (edges_sq t') ->
  (e <= voxel_width resolution * voxel_width resolution)%Q.
Proof.
  intros HR Ht' He.
  assert (Hb : (longest_edge_sq t' * four_pow (rounds_for resolution t)
                <= longest_edge_sq t)%Q).
  { pose proof (refine_bound (rounds_for resolution t) [t] (longest_edge_sq t)) as Hb.
    rewrite !List.Forall_forall in Hb. apply Hb; [| exact Ht'].
    intros u [<-|[]]. apply Qle_refl. }
  pose proof (rounds_enough resolution t) as Hr.
  pose proof (longest_edge_In t' e He) as Hle.
  pose proof (four_pow_pos (rounds_for resolution t)) as Hp.
  set (P := four_pow (rounds_for resolution t)) in *.
  set (L' := longest_edge_sq t') in *. set (L := longest_edge_sq t) in *.
  assert (Hr2 : (0 < inject_Z (resolution * resolution))%Q)
    by (rewrite <- (Zlt_Qlt 0); nia).
  set (r2 := inject_Z (resolution * resolution)) in *.
  assert (Hw : (voxel_width resolution * voxel_width resolution == 1 / r2)%Q).
  { unfold voxel_width, r2. rewrite inject_Z_mult. field.
    intros E. apply (Qlt_irrefl 0). rewrite <- E at 2.
    rewrite <- (Zlt_Qlt 0). exact HR. }
  rewrite Hw. apply Qle_shift_div_l; [exact Hr2 |].
  assert (HL : (L' * r2 <= 1)%Q); [| nra].
  assert (H1 : (L' * P * r2 <= L * r2)%Q) by nra.
  assert (H2 : (L' * r2 * P <= 1 * P)%Q) by nra.
  apply Qmult_le_r in H2; [exact H2 | exact Hp].
Qed.



Example degenerate_face_needs_no_round :
  rounds_for 3 ((0, 0, 0), (0, 0, 0), (0, 0, 0))%Q = 0
  /\ subdivide [(0, 0, 0)%Q] [(0, 0, 0)%Z] 3
     = Ok [(0, 0, 0); (0, 0, 0); (0, 0, 0); (0, 0, 0)]%Q.
Proof. split; vm_compute; reflexivity. Qed.

Example docstring_face_needs_three_rounds :
  rounds_for 3 ((0, 0, 0), (1, 0, 0), (0, 0, 1))%Q = 3.
Proof. vm_compute. reflexivity. Qed.

(** ** Instances on the docstring scenario *)

Lemma C4_normalized_points_witness :
  exists gs, t_data (mkTensor float32 cpu (Strided [example_grid])) = Strided gs.
Proof.
  destruct (C4_normalized_points_and_defaults subdivide rasterize
              example_vertices example_faces 3 None None false
              (mkTensor float32 cpu (Strided [example_grid])))
    as (gs & Hgs & _).
  - discriminate.
  - discriminate.
  - vm_compute. reflexivity.
  - exists gs. exact Hgs.
Defined.

Lemma C5_batch_independence_witness :
  exists gs g,
    t_data (mkTensor float32 cpu (Strided [example_grid; example_grid])) = Strided gs
    /\ gs !! 1 = Some g
    /\ trianglemeshes_to_voxelgrids subdivide rasterize
         (mkTensor float32 cpu [[(0, 0, 0); (1, 0, 0); (0, 0, 1)]%Q])
         example_faces (PyInt 3) (Some [(0, 0, 0)%Q]) (Some [1%Q]) false
       = Ok (mkTensor float32 cpu (Strided [g])).
Proof.
  apply (C5_batch_independence subdivide rasterize
           (mkTensor float32 cpu
              [ [(0, 0, 0); (2, 0, 0); (0, 0, 2)];
                [(0, 0, 0); (1, 0, 0); (0, 0, 1)] ]%Q)
           example_faces (PyInt 3) [(0, 0, 0); (0, 0, 0)]%Q [2; 1]%Q false
           (mkTensor float32 cpu (Strided [example_grid; example_grid]))
           1 [(0, 0, 0); (1, 0, 0); (0, 0, 1)]%Q (0, 0, 0)%Q 1%Q).
  - reflexivity.
  - reflexivity.
  - vm_compute. reflexivity.
  - reflexivity.
  - reflexivity.
  - reflexivity.
Defined.

Lemma C9_result_shape_witness :
  t_dtype (mkTensor float32 cpu (Strided [example_grid])) = float32 /\
  t_device (mkTensor float32 cpu (Strided [example_grid])) = cpu /\
  (0 <= 3)%Z /\
  exists gs, t_data (mkTensor float32 cpu (Strided [example_grid])) = Strided gs /\
    length gs = 1 /\ Forall (cube 3) gs.
Proof.
  apply (C9_result_shape_dtype_device subdivide rasterize
           example_vertices example_faces 3
           (Some example_origin) (Some example_scale) false
           (mkTensor float32 cpu (Strided [example_grid]))).
  vm_compute. reflexivity.
Defined.

(** Vertices between (1,0,0) and (2,0,1) with the origin (0,0,0) supplied:
    the default scale is 2 - 0 = 2. *)
Lemma C10_default_scale_witness :
  exists gs,
    t_data (mkTensor float32 cpu
              (Strided [ [ [ [0; 0; 0]; [0; 0; 0]; [0; 0; 0] ];
                           [ [1; 1; 0]; [0; 0; 0]; [0; 0; 0] ];
                           [ [1; 0; 0]; [0; 0; 0]; [0; 0; 0] ] ]%Q ]))
    = Strided gs /\
    forall i vs o,
      t_data (mkTensor float32 cpu [[(1, 0, 0); (2, 0, 0); (1, 0, 1)]%Q]) !! i
      = Some vs ->
      [(0, 0, 0)%Q] !! i = Some o ->
      largest_extent vs o (scale_from_origin vs o) /\
      exists g, gs !! i = Some g /\
        item_grid subdivide rasterize [(0, 1, 2)%Z] 3 false
          (map (normalized o (scale_from_origin vs o)) vs) g.
Proof.
  apply (C10_default_scale_uses_supplied_origin subdivide rasterize
           (mkTensor float32 cpu [[(1, 0, 0); (2, 0, 0); (1, 0, 1)]%Q])
           [(0, 1, 2)%Z] 3 [(0, 0, 0)%Q] false).
  - reflexivity.
  - vm_compute. reflexivity.
Defined.

(** On these vertices the call with the origin (0,0,0) supplied and the scale
    omitted is the call with the scale 2, not the call with the scale 1 that
    the per-axis minimum (1,0,0) would give; its grid differs from the grid
    of the call with both omitted. *)
Example supplied_origin_changes_the_default_scale :
  let call := trianglemeshes_to_voxelgrids subdivide rasterize
                (mkTensor float32 cpu [[(1, 0, 0); (2, 0, 0); (1, 0, 1)]%Q])
                [(0, 1, 2)%Z] (PyInt 3) in
  call (Some [(0, 0, 0)%Q]) None false = call (Some [(0, 0, 0)%Q]) (Some [2%Q]) false
  /\ call (Some [(0, 0, 0)%Q]) None false <> call (Some [(0, 0, 0)%Q]) (Some [1%Q]) false
  /\ call (Some [(0, 0, 0)%Q]) None false <> call None None false.
Proof.
  cbv zeta. split; [vm_compute; reflexivity |]. split; vm_compute; discriminate.
Qed.

(** With the origin (0,0,0) supplied for vertices between (1,1,1) and
    (3,2,2), the default scale is 3 - 0 = 3; measured from the per-axis
    minimum (1,1,1) it would have been 2. *)
Example default_scale_from_origin_not_from_minimum :
  scale_from_origin [(1, 1, 1); (3, 2, 2)]%Q (0, 0, 0)%Q = 3%Q /\
  scale_from_origin [(1, 1, 1); (3, 2, 2)]%Q (1, 1, 1)%Q = 2%Q.
Proof. split; vm_compute; reflexivity. Qed.

(** ** The loop as a map over the batch *)

Lemma convert_item_as_result sub rast bp faces R rs i st item :
  bp !! i = Some item -> i < length st ->
  convert_item sub rast bp faces R rs i st
  = (g <- item_result sub rast faces R rs item ;; Ok (<[i := g]> st)).
Proof.
  intros Hitem Hi. unfold convert_item, item_result, getitem, setitem.
  rewrite Hitem. simpl.
  destruct (sub item faces R) as [points|e]; simpl; [| reflexivity].
  destruct (rast [points] R rs) as [vg|e]; simpl; [| reflexivity].
  apply Nat.ltb_lt in Hi. rewrite Hi.
  destruct vg as [[|g [|? ?]]|]; reflexivity.
Qed.

Lemma for_loop_as_map sub rast bp faces R rs n : forall a st,
  a + n <= length st -> a + n <= length bp ->
  for_loop (seq a n) (convert_item sub rast bp faces R rs) st
  = (gs <- mapM (item_result sub rast faces R rs) (take n (drop a bp)) ;;
     Ok (take a st ++ gs ++ drop (a + n) st)).
Proof.
  induction n as [|n IH]; intros a st Hst Hbp; simpl.
  - rewrite Nat.add_0_r, take_drop. reflexivity.
  - destruct (lookup_lt_is_Some_2 bp a ltac:(lia)) as [item Hitem].
    rewrite (drop_S _ _ _ Hitem). simpl.
    rewrite (convert_item_as_result _ _ _ _ _ _ _ _ _ Hitem) by lia.
    destruct (item_result sub rast faces R rs item) as [g|e]; simpl; [| reflexivity].
    rewrite IH by (rewrite ?length_insert; lia).
    destruct (mapM _ (take n (drop (S a) bp))) as [gs|e]; simpl; [| reflexivity].
    f_equal.
    rewrite (take_S_r _ _ g) by (apply list_lookup_insert_eq; lia).
    rewrite take_insert_ge by lia.
    rewrite drop_insert_lt by lia.
    rewrite <- app_assoc. simpl.
    replace (a + S n) with (S a + n) by lia. reflexivity.
Qed.

Lemma normalized_batch_eq (V : list (list point)) : forall os ss,
  zip_with (fun vs s => map (fun v => pdiv v s) vs)
           (zip_with (fun vs o => map (fun v => psub v o) vs) V os) ss
  = normalized_batch V os ss.
Proof.
  unfold normalized_batch.
  induction V as [|vs V IH]; intros [|o os] [|s ss]; simpl; try reflexivity.
  rewrite IH, map_map. reflexivity.
Qed.

Lemma normalized_batch_length V os ss :
  length os = length V -> length ss = length V ->
  length (normalized_batch V os ss) = length V.
Proof.
  intros Ho Hs. unfold normalized_batch.
  rewrite length_zip_with, length_zip. lia.
Qed.

Lemma normalized_batch_lookup V os ss i vs o s :
  V !! i = Some vs -> os !! i = Some o -> ss !! i = Some s ->
  normalized_batch V os ss !! i = Some (map (normalized o s) vs).
Proof.
  intros Hvs Ho Hs. unfold normalized_batch.
  rewrite lookup_zip_with, Hvs. simpl.
  assert (Hz : zip os ss !! i = Some (o, s)) by (apply lookup_zip_Some; auto).
  rewrite Hz. reflexivity.
Qed.

(** With an origin and a scale of one entry per item, the call is the
    allocation followed by a map of the per-item pipeline over the normalised
    batch. *)
Lemma convert_supplied_eq sub rast V faces R os ss rs :
  length os = length (t_data V) -> length ss = length (t_data V) ->
  trianglemeshes_to_voxelgrids sub rast V faces (PyInt R) (Some os) (Some ss) rs
  = (zs <- torch_zeros (length (t_data V)) R ;;
     gs <- mapM (item_result sub rast faces R rs)
                (normalized_batch (t_data V) os ss) ;;
     Ok (mkTensor (t_dtype V) (t_device V) (Strided gs))).
Proof.
  intros Ho Hs. unfold trianglemeshes_to_voxelgrids. cbn [bind].
  destruct (torch_zeros (length (t_data V)) R) as [zs|e] eqn:Hzs; cbn [bind];
    [| reflexivity].
  apply torch_zeros_Ok in Hzs. destruct Hzs as [_ ->].
  rewrite broadcast0_same by congruence. cbn [bind].
  rewrite broadcast0_same by (rewrite length_zip_with; lia). cbn [bind].
  rewrite normalized_batch_eq. unfold for_range.
  pose proof (normalized_batch_length _ _ _ Ho Hs) as Hlen.
  rewrite for_loop_as_map by (rewrite ?repeat_length; lia).
  rewrite drop_0, (take_ge (normalized_batch _ _ _)) by lia.
  destruct (mapM _ _) as [gs|e]; simpl; [| reflexivity].
  rewrite (drop_ge (repeat _ _)) by (rewrite repeat_length; lia).
  rewrite app_nil_r. reflexivity.
Qed.

Lemma convert_supplied_Ok sub rast V faces R os ss rs G :
  length os = length (t_data V) -> length ss = length (t_data V) ->
  trianglemeshes_to_voxelgrids sub rast V faces (PyInt R) (Some os) (Some ss) rs
  = Ok G
  <-> allocatable R /\
      exists gs,
        mapM (item_result sub rast faces R rs) (normalized_batch (t_data V) os ss)
        = Ok gs /\
        G = mkTensor (t_dtype V) (t_device V) (Strided gs).
Proof.
  intros Ho Hs. rewrite (convert_supplied_eq _ _ _ _ _ _ _ _ Ho Hs). split.
  - intros H. inv_bind H as zs Hzs. inv_bind H as gs Hgs. injection H as <-.
    apply torch_zeros_Ok in Hzs. destruct Hzs as [HR _]. eauto.
  - intros (HR & gs & Hgs & ->).
    rewrite (torch_zeros_allocatable _ _ HR). cbn [bind]. rewrite Hgs. reflexivity.
Qed.

Lemma item_result_grid sub rast faces R rs item g :
  item_result sub rast faces R rs item = Ok g
  <-> item_grid sub rast faces R rs item g.
Proof.
  unfold item_result, item_grid. split.
  - intros H. inv_bind H as points Hsub. inv_bind H as vg Hrast.
    destruct vg as [[|g0 [|? ?]]|]; try discriminate. eauto.
  - intros (points & g0 & Hsub & Hrast & H).
    rewrite Hsub. cbn [bind]. rewrite Hrast. cbn [bind]. exact H.
Qed.

Lemma normalized_batch_take n V os ss :
  normalized_batch (take n V) (take n os) (take n ss)
  = take n (normalized_batch V os ss).
Proof.
  unfold normalized_batch. rewrite zip_with_take. f_equal.
  symmetry. apply (zip_with_take pair).
Qed.

Lemma mapM_Forall2 {A B : Type} (f : A -> result B) (l : list A) (ys : list B) :
  mapM f l = Ok ys <-> Forall2 (fun x y => f x = Ok y) l ys.
Proof.
  revert ys. induction l as [|x l IH]; intros ys; simpl.
  - split; [intros H; injection H as <-; constructor |].
    intros H. inversion H. reflexivity.
  - split.
    + intros H. inv_bind H as y Hy. inv_bind H as ys' Hys'. injection H as <-.
      constructor; [exact Hy | apply IH; exact Hys'].
    + intros H. inversion H as [|? y ? ys' Hy Hys']; subst.
      rewrite Hy. simpl. apply IH in Hys'. rewrite Hys'. reflexivity.
Qed.

Lemma mapM_first_error {A B : Type} (f : A -> result B) (l : list A) :
  forall i x e,
    l !! i = Some x -> f x = Raise e ->
    (forall j y, j < i -> l !! j = Some y -> exists b, f y = Ok b) ->
    mapM f l = Raise e.
Proof.
  induction l as [|a l IH]; intros i x e Hx He Hbefore; [discriminate |].
  destruct i as [|i]; simpl in *.
  - injection Hx as ->. rewrite He. reflexivity.
  - destruct (Hbefore 0 a ltac:(lia) eq_refl) as [b Hb]. rewrite Hb. simpl.
    rewrite (IH i x e Hx He); [reflexivity |].
    intros j y Hj Hy. apply (Hbefore (S j) y); [lia | exact Hy].
Qed.

Lemma mapM_app {A B : Type} (f : A -> result B) (l1 l2 : list A) ys1 ys2 :
  mapM f l1 = Ok ys1 -> mapM f l2 = Ok ys2 ->
  mapM f (l1 ++ l2) = Ok (ys1 ++ ys2).
Proof.
  rewrite !mapM_Forall2. apply Forall2_app.
Qed.

(** ** The scale *)

Lemma vertex_at_Ok vertices i v :
  vertex_at vertices i = Ok v -> (0 <= i < Z.of_nat (length vertices))%Z.
Proof.
  unfold vertex_at.
  destruct ((0 <=? i)%Z && (i <? Z.of_nat (length vertices))%Z) eqn:E;
    [| discriminate].
  intros _. apply andb_true_iff in E. destruct E as [E1 E2].
  apply Z.leb_le in E1. apply Z.ltb_lt in E2. lia.
Qed.

Lemma subdivide_Ok_valid vertices faces resolution points :
  subdivide vertices faces resolution = Ok points ->
  Forall (valid_face (length vertices)) faces.
Proof.
  unfold subdivide. intros H. inv_bind H as ts Hts.
  destruct (mapM_Ok _ _ _ Hts) as [_ Hlk].
  apply Forall_lookup. intros n [[i j] k] Hf.
  destruct (Hlk _ _ Hf) as (t & _ & Ht). unfold face_triangle in Ht.
  inv_bind Ht as a Ha. inv_bind Ht as b Hb. inv_bind Ht as c Hc.
  apply vertex_at_Ok in Ha, Hb, Hc. unfold valid_face. lia.
Qed.



(** ** Further properties of [trianglemeshes_to_voxelgrids] *)

Section Further.

Variable sub : list point -> list face -> Z -> result (list point).
Variable rast : list (list point) -> Z -> bool -> result storage.

Abbreviation convert' := (trianglemeshes_to_voxelgrids sub rast).
Abbreviation pipeline := (item_result sub rast).


(** X3.  Calls compose along the batch axis: the result for two batches put
    one after the other is the two results put one after the other. *)
Theorem X3_batches_concatenate
    (dt : dtype) (dev : device) (V1 V2 : list (list point)) (faces : list face)
    (resolution : pyobj) (os1 os2 : list point) (ss1 ss2 : list Q)
    (return_sparse : bool) (gs1 gs2 : list grid) :
  length os1 = length V1 -> length ss1 = length V1 ->
  length os2 = length V2 -> length ss2 = length V2 ->
  convert' (mkTensor dt dev V1) faces resolution (Some os1) (Some ss1) return_sparse
  = Ok (mkTensor dt dev (Strided gs1)) ->
  convert' (mkTensor dt dev V2) faces resolution (Some os2) (Some ss2) return_sparse
  = Ok (mkTensor dt dev (Strided gs2)) ->
  convert' (mkTensor dt dev (V1 ++ V2)) faces resolution
           (Some (os1 ++ os2)) (Some (ss1 ++ ss2)) return_sparse
  = Ok (mkTensor dt dev (Strided (gs1 ++ gs2))).
Proof.
  intros Ho1 Hs1 Ho2 Hs2 H1 H2.
  destruct resolution as [R| |]; try discriminate.
  apply convert_supplied_Ok in H1; [| assumption | assumption].
  apply convert_supplied_Ok in H2; [| assumption | assumption].
  destruct H1 as (HR & g1 & Hg1 & E1). destruct H2 as (_ & g2 & Hg2 & E2).
  injection E1 as ->. injection E2 as ->. cbn [t_data] in *.
  apply convert_supplied_Ok; [cbn [t_data]; rewrite !length_app; congruence
                             | cbn [t_data]; rewrite !length_app; congruence |].
  split; [exact HR |]. exists (g1 ++ g2). split; [| reflexivity].
  cbn [t_data]. unfold normalized_batch in *.
  rewrite (zip_with_app pair) by congruence.
  rewrite zip_with_app by (rewrite length_zip; lia).
  fold (zip os1 ss1) (zip os2 ss2).
  apply mapM_app; assumption.
Qed.


Lemma single_item_call dt dev vs faces R origin1 scale1 rs o s g :
  resolved_origin [vs] origin1 [o] ->
  resolved_scale [vs] [o] scale1 [s] ->
  allocatable R ->
  item_grid sub rast faces R rs (map (normalized o s) vs) g ->
  convert' (mkTensor dt dev [vs]) faces (PyInt R) origin1 scale1 rs
  = Ok (mkTensor dt dev (Strided [g])).
Proof.
  intros Hos Hss HR Hg.
  unfold trianglemeshes_to_voxelgrids. cbn [t_data t_dtype t_device length].
  assert (E1 : match origin1 with
               | Some origin => Ok origin
               | None => torch_min_dim1 [vs]
               end = Ok [o]).
  { destruct origin1; simpl in Hos; [subst; reflexivity | exact Hos]. }
  rewrite E1. cbn [bind].
  assert (E2 : match scale1 with
               | Some scale => Ok scale
               | None => max_val <- torch_max_dim1 [vs] ;;
                         extent <- broadcast0 psub max_val [o] ;;
                         Ok (map max_axes extent)
               end = Ok [s]).
  { destruct scale1; simpl in Hss; [subst; reflexivity |].
    destruct Hss as (mv & ext & -> & Hext & ->). cbn [bind]. rewrite Hext.
    reflexivity. }
  rewrite E2. cbn [bind].
  rewrite (torch_zeros_allocatable 1 R HR). simpl.
  unfold for_range. simpl.
  rewrite (convert_item_intro sub rast _ faces R rs 0
             [zeros3 (Z.to_nat R)] (map (normalized o s) vs) g).
  - reflexivity.
  - simpl. rewrite map_map. reflexivity.
  - exact Hg.
  - simpl. lia.
Qed.

(** X5.  Batch independence also holds for the defaults: whether origin and
    scale are supplied or omitted, the grid of item [i] is the grid returned
    for item [i] alone, called with its own entries of what was supplied and
    with the same omissions. *)
Theorem X5_batch_independence_with_defaults
    (vertices : tensor (list (list point))) (faces : list face) (resolution : pyobj)
    (origin : option (list point)) (scale : option (list Q)) (return_sparse : bool)
    (G : tensor storage) (i : nat) (vs : list point) :
  (forall os, origin = Some os -> length os = length (t_data vertices)) ->
  (forall ss, scale = Some ss -> length ss = length (t_data vertices)) ->
  convert' vertices faces resolution origin scale return_sparse = Ok G ->
  t_data vertices !! i = Some vs ->
  exists gs g o s,
    t_data G = Strided gs /\ gs !! i = Some g /\
    (forall os, origin = Some os -> os !! i = Some o) /\
    (forall ss, scale = Some ss -> ss !! i = Some s) /\
    convert' (mkTensor (t_dtype vertices) (t_device vertices) [vs]) faces resolution
             (entry_of origin o) (entry_of scale s) return_sparse
    = Ok (mkTensor (t_dtype vertices) (t_device vertices) (Strided [g])).
Proof.
  intros Horigin Hscale H Hvs.
  destruct resolution as [R| |]; try discriminate.
  destruct (convert_inv _ _ _ _ _ _ _ _ _ H)
    as (os & ss & shifted & bp & gs & Hos & Hss & HR & Hshift & Hbp & Hloop & ->).
  pose proof (resolved_origin_length _ _ _ Hos Horigin) as Hlo.
  pose proof (resolved_scale_length _ _ _ _ Hss Hlo Hscale) as Hls.
  pose proof (lookup_lt_Some _ _ _ Hvs) as Hi.
  destruct (lookup_lt_is_Some_2 os i ltac:(lia)) as [o Ho].
  destruct (lookup_lt_is_Some_2 ss i ltac:(lia)) as [s Hs].
  destruct (for_loop_Ok _ _ _ _ _ _ _ _ _ _ Hloop) as (_ & _ & Hin).
  destruct (Hin i ltac:(lia)) as (item & g & Hitem & Hg & Hgi).
  rewrite (normalized_item _ _ _ _ _ _ _ _ _ Hlo Hls Hshift Hbp Hvs Ho Hs) in Hitem.
  injection Hitem as <-.
  exists gs, g, o, s. split; [reflexivity |]. split; [exact Hgi |].
  split; [intros os' ->; simpl in Hos; subst; exact Ho |].
  split; [intros ss' ->; simpl in Hss; subst; exact Hs |].
  apply single_item_call with (o := o) (s := s); auto.
  - destruct origin as [os'|]; simpl; [reflexivity |]. simpl in Hos.
    destruct (mapM_Ok _ _ _ Hos) as [_ Hlk].
    destruct (Hlk _ _ Hvs) as (o' & Ho' & Hred).
    rewrite Ho in Ho'. injection Ho' as <-.
    unfold torch_min_dim1. simpl. rewrite Hred. reflexivity.
  - destruct scale as [ss'|]; simpl; [reflexivity |]. simpl in Hss.
    destruct Hss as (max_val & extent & Hmax & Hext & ->).
    destruct (mapM_Ok _ _ _ Hmax) as [Hlm Hlk].
    destruct (Hlk _ _ Hvs) as (M & HM & Hred).
    rewrite broadcast0_same in Hext by congruence. injection Hext as <-.
    rewrite list_lookup_fmap, lookup_zip_with, HM, Ho in Hs. simpl in Hs.
    injection Hs as <-.
    exists [M], [psub M o]. repeat split.
    unfold torch_max_dim1. simpl. rewrite Hred. reflexivity.
Qed.

(** *** Broadcasting along the batch axis *)

Lemma zip_with_repeat_r {A B C : Type} (f : A -> B -> C) (xs : list A) (y : B) :
  zip_with f xs (repeat y (length xs)) = map (fun x => f x y) xs.
Proof. induction xs as [|x xs IH]; simpl; [reflexivity | rewrite IH; reflexivity]. Qed.

Lemma broadcast0_single {A B C : Type} (f : A -> B -> C) (xs : list A) (y : B) :
  broadcast0 f xs [y] = broadcast0 f xs (repeat y (length xs)).
Proof.
  destruct xs as [|x [|x' xs]]; try reflexivity.
  rewrite (broadcast0_same f (x :: x' :: xs) (repeat y _))
    by (rewrite repeat_length; reflexivity).
  rewrite zip_with_repeat_r. reflexivity.
Qed.

Lemma broadcast0_length {A B C : Type} (f : A -> B -> C) xs ys zs :
  broadcast0 f xs ys = Ok zs -> length xs <> 1 -> length zs = length xs.
Proof.
  unfold broadcast0. destruct (length xs =? length ys) eqn:E.
  - apply Nat.eqb_eq in E. intros H _. injection H as <-.
    rewrite length_zip_with. lia.
  - intros H Hne. destruct xs as [|x [|x' xs]]; simpl in Hne; try lia.
    + destruct ys as [|y [|? ?]]; try discriminate. injection H as <-. reflexivity.
    + destruct ys as [|y [|? ?]]; try discriminate. injection H as <-.
      simpl. rewrite ?length_map. reflexivity.
Qed.

Lemma broadcast0_mismatch {A B C : Type} (f : A -> B -> C) xs ys :
  length xs <> length ys -> length xs <> 1 -> length ys <> 1 ->
  broadcast0 f xs ys = Raise RuntimeError.
Proof.
  intros Hne Hx Hy. unfold broadcast0.
  replace (length xs =? length ys) with false by (symmetry; apply Nat.eqb_neq; exact Hne).
  destruct xs as [|x [|? ?]], ys as [|y [|? ?]]; simpl in *; try reflexivity; lia.
Qed.

(** X6.  An origin or a scale with a single entry is shared by all the items
    of the batch: the call is the call with that entry repeated once per
    item. *)
Theorem X6_single_entry_is_shared
    (vertices : tensor (list (list point))) (faces : list face) (resolution : pyobj)
    (return_sparse : bool) :
  (forall o scale,
      convert' vertices faces resolution (Some [o]) scale return_sparse
      = convert' vertices faces resolution
          (Some (repeat o (length (t_data vertices)))) scale return_sparse)
  /\
  (forall s origin,
      convert' vertices faces resolution origin (Some [s]) return_sparse
      = convert' vertices faces resolution origin
          (Some (repeat s (length (t_data vertices)))) return_sparse).
Proof.
  destruct resolution as [R| |]; try (split; reflexivity).
  unfold trianglemeshes_to_voxelgrids. split.
  - intros o scale. cbn [bind].
    rewrite <- (broadcast0_single (fun vs o => map (fun v => psub v o) vs)).
    destruct scale as [ss|]; [reflexivity |].
    destruct (torch_max_dim1 (t_data vertices)) as [mv|e] eqn:Hmax; [| reflexivity].
    cbn [bind]. destruct (mapM_Ok _ _ _ Hmax) as [Hlen _].
    rewrite <- Hlen, <- (broadcast0_single psub). reflexivity.
  - intros s origin.
    destruct (match origin with
              | Some o => Ok o
              | None => torch_min_dim1 (t_data vertices)
              end) as [os|e]; [| reflexivity].
    cbn [bind].
    destruct (torch_zeros _ R) as [zs|e]; [| reflexivity]. cbn [bind].
    destruct (broadcast0 _ (t_data vertices) os) as [shifted|e] eqn:Hsh;
      [| reflexivity].
    cbn [bind].
    destruct (decide (length (t_data vertices) = 1)) as [E|Hne].
    + rewrite E. reflexivity.
    + rewrite <- (broadcast0_length _ _ _ _ Hsh Hne).
      rewrite <- broadcast0_single. reflexivity.
Qed.

(** X7.  When the batch has not exactly one item, a supplied origin or scale
    whose number of entries is neither 1 nor the batch size makes the call
    fail, whatever the other arguments. *)
Theorem X7_mismatched_sizes_raise
    (vertices : tensor (list (list point))) (faces : list face) (resolution : pyobj)
    (origin : option (list point)) (scale : option (list Q)) (return_sparse : bool) :
  length (t_data vertices) <> 1 ->
  (exists os, origin = Some os /\ length os <> length (t_data vertices)
              /\ length os <> 1)
  \/ (exists ss, scale = Some ss /\ length ss <> length (t_data vertices)
                 /\ length ss <> 1) ->
  exists e, convert' vertices faces resolution origin scale return_sparse = Raise e.
Proof.
  intros HB Hbad.
  destruct resolution as [R| |]; try (eexists; reflexivity).
  unfold trianglemeshes_to_voxelgrids.
  destruct (match origin with
            | Some o => Ok o
            | None => torch_min_dim1 (t_data vertices)
            end) as [os|e] eqn:Hos; [| eexists; reflexivity].
  cbn [bind].
  destruct (match scale with
            | Some s => Ok s
            | None => _
            end) as [ss|e] eqn:Hss; [| eexists; reflexivity].
  cbn [bind].
  destruct (torch_zeros _ R) as [zs|e]; [| eexists; reflexivity]. cbn [bind].
  destruct (broadcast0 _ (t_data vertices) os) as [shifted|e] eqn:Hsh;
    [| eexists; reflexivity].
  cbn [bind].
  destruct Hbad as [(os' & -> & Hlen & H1)|(ss' & -> & Hlen & H1)].
  - injection Hos as <-.
    rewrite broadcast0_mismatch in Hsh by auto. discriminate.
  - injection Hss as <-.
    pose proof (broadcast0_length _ _ _ _ Hsh HB) as Hl.
    rewrite broadcast0_mismatch by (auto; congruence).
    eexists; reflexivity.
Qed.

(** *** The default origin and scale *)

Lemma default_bounds vs o M :
  reduce_points pmin vs = Ok o -> reduce_points pmax vs = Ok M ->
  (forall v, In v vs ->
     (px o <= px v <= px M /\ py o <= py v <= py M /\ pz o <= pz v <= pz M)%Q) /\
  (exists a b c a' b' c',
     In a vs /\ In b vs /\ In c vs /\ In a' vs /\ In b' vs /\ In c' vs /\
     px o = px a /\ py o = py b /\ pz o = pz c /\
     px M = px a' /\ py M = py b' /\ pz M = pz c').
Proof.
  intros Hmin Hmax.
  destruct (reduce_pmin_minimum _ _ Hmin) as ((Ix & Lx) & (Iy & Ly) & (Iz & Lz)).
  destruct (reduce_pmax_maximum _ _ Hmax) as ((Jx & Ux) & (Jy & Uy) & (Jz & Uz)).
  split.
  - intros v Hv. repeat split;
      first [apply Lx | apply Ly | apply Lz | apply Ux | apply Uy | apply Uz];
      apply in_map; exact Hv.
  - apply in_map_iff in Ix, Iy, Iz, Jx, Jy, Jz.
    destruct Ix as (a & Ea & Ha), Iy as (b & Eb & Hb), Iz as (c & Ec & Hc).
    destruct Jx as (a' & Ea' & Ha'), Jy as (b' & Eb' & Hb'), Jz as (c' & Ec' & Hc').
    exists a, b, c, a', b', c'. repeat split; auto.
Qed.

Lemma default_scale_facts vs o M :
  reduce_points pmin vs = Ok o -> reduce_points pmax vs = Ok M ->
  (0 <= max_axes (psub M o))%Q /\
  ((max_axes (psub M o) == 0)%Q <->
   forall v w, In v vs -> In w vs -> same_point v w).
Proof.
  intros Hmin Hmax.
  destruct (default_bounds _ _ _ Hmin Hmax)
    as (Hb & a & b & c & a' & b' & c' & Ha & Hb' & Hc & Ha' & Hb'' & Hc'
        & Ea & Eb & Ec & Ea' & Eb' & Ec').
  destruct (max_axes_maximum M o) as [Hin Hle].
  set (s := max_axes (psub M o)) in *.
  assert (Hx : (px M - px o <= s)%Q) by (apply Hle; simpl; auto).
  assert (Hy : (py M - py o <= s)%Q) by (apply Hle; simpl; auto).
  assert (Hz : (pz M - pz o <= s)%Q) by (apply Hle; simpl; auto).
  pose proof (Hb a Ha) as (Hax & _ & _).
  split; [lra |]. split.
  - intros Hs v w Hv Hw.
    destruct (Hb v Hv) as (Hvx & Hvy & Hvz). destruct (Hb w Hw) as (Hwx & Hwy & Hwz).
    unfold same_point. repeat split; lra.
  - intros Hsame.
    destruct (Hsame a a' Ha Ha') as (Sx & _ & _).
    destruct (Hsame b b' Hb' Hb'') as (_ & Sy & _).
    destruct (Hsame c c' Hc Hc') as (_ & _ & Sz).
    rewrite <- Ea, <- Ea' in Sx. rewrite <- Eb, <- Eb' in Sy.
    rewrite <- Ec, <- Ec' in Sz.
    destruct Hin as [E|[E|[E|[]]]]; rewrite <- E; lra.
Qed.

(** X9.  The default scale of an item is never negative, and it is zero
    exactly when all the vertices of the item coincide (the case in which
    the normalisation divides by zero). *)
Theorem X9_default_scale_sign
    (V : list (list point)) (origin max_val extent : list point)
    (i : nat) (vs : list point) (s : Q) :
  torch_min_dim1 V = Ok origin ->
  torch_max_dim1 V = Ok max_val ->
  broadcast0 psub max_val origin = Ok extent ->
  V !! i = Some vs ->
  map max_axes extent !! i = Some s ->
  (0 <= s)%Q /\
  ((s == 0)%Q <-> forall v w, In v vs -> In w vs -> same_point v w).
Proof.
  intros Hos Hmax Hext Hvs Hs.
  destruct (mapM_Ok _ _ _ Hos) as [Hlo Hlko].
  destruct (mapM_Ok _ _ _ Hmax) as [Hlm Hlkm].
  rewrite broadcast0_same in Hext by congruence. injection Hext as <-.
  destruct (Hlko _ _ Hvs) as (o & Ho & Hmin).
  destruct (Hlkm _ _ Hvs) as (M & HM & Hmx).
  rewrite list_lookup_fmap, lookup_zip_with, HM, Ho in Hs. simpl in Hs.
  injection Hs as <-.
  apply (default_scale_facts vs o M); assumption.
Qed.

(** *** Empty inputs *)

(** X10.  On an empty batch the helpers are never called: the outcome of the
    call does not depend on the helpers, the faces or the mode, and when the
    call returns, the result is the empty strided tensor with the dtype and
    the device of [vertices]. *)
Theorem X10_empty_batch
    (vertices : tensor (list (list point))) (faces : list face) (resolution : pyobj)
    (origin : option (list point)) (scale : option (list Q)) (return_sparse : bool) :
  t_data vertices = [] ->
  (forall sub' rast' faces' return_sparse',
      convert' vertices faces resolution origin scale return_sparse
      = trianglemeshes_to_voxelgrids sub' rast' vertices faces' resolution
          origin scale return_sparse')
  /\
  (forall G,
      convert' vertices faces resolution origin scale return_sparse = Ok G ->
      G = mkTensor (t_dtype vertices) (t_device vertices) (Strided [])).
Proof.
  intros HV. split.
  - intros sub' rast' faces' rs'.
    destruct resolution as [R| |]; try reflexivity.
    unfold trianglemeshes_to_voxelgrids, for_range. rewrite HV.
    cbn [length seq for_loop]. reflexivity.
  - intros G H. destruct resolution as [R| |]; try discriminate.
    destruct (convert_inv _ _ _ _ _ _ _ _ _ H)
      as (os & ss & shifted & bp & gs & _ & _ & _ & _ & _ & Hloop & ->).
    rewrite HV in Hloop. unfold for_range in Hloop. simpl in Hloop.
    injection Hloop as <-. reflexivity.
Qed.

Lemma mapM_raises {A B : Type} (f : A -> result B) (l : list A) (x : A) :
  In x l -> (exists e, f x = Raise e) -> exists e, mapM f l = Raise e.
Proof.
  intros Hx [e He]. induction l as [|a l IH]; [destruct Hx |]. simpl.
  destruct (f a) as [b|e'] eqn:Ha; simpl; [| eauto].
  destruct Hx as [->|Hx]; [congruence |].
  destruct (IH Hx) as [e'' ->]. simpl. eauto.
Qed.

(** X11.  When origin or scale is omitted, an item without vertices makes the
    call fail: the minimum or maximum over its vertices does not exist. *)
Theorem X11_default_of_empty_item_raises
    (vertices : tensor (list (list point))) (faces : list face) (resolution : pyobj)
    (origin : option (list point)) (scale : option (list Q)) (return_sparse : bool) :
  In [] (t_data vertices) ->
  origin = None \/ scale = None ->
  exists e, convert' vertices faces resolution origin scale return_sparse = Raise e.
Proof.
  intros Hempty Hnone.
  destruct resolution as [R| |]; try (eexists; reflexivity).
  unfold trianglemeshes_to_voxelgrids.
  assert (Hmin : exists e, torch_min_dim1 (t_data vertices) = Raise e)
    by (eapply mapM_raises; [exact Hempty | eexists; reflexivity]).
  assert (Hmax : exists e, torch_max_dim1 (t_data vertices) = Raise e)
    by (eapply mapM_raises; [exact Hempty | eexists; reflexivity]).
  destruct Hmin as [e1 Hmin], Hmax as [e2 Hmax].
  destruct origin as [os|]; [| rewrite Hmin; eexists; reflexivity].
  destruct Hnone as [Hn| ->]; [discriminate |].
  cbn [bind]. rewrite Hmax. eexists; reflexivity.
Qed.

End Further.

(** ** Instances of the further properties *)


Lemma X3_batches_concatenate_witness :
  trianglemeshes_to_voxelgrids subdivide rasterize
    (mkTensor float32 cpu (t_data example_vertices ++ t_data example_vertices))
    example_faces (PyInt 3)
    (Some (example_origin ++ example_origin)) (Some (example_scale ++ example_scale))
    false
  = Ok (mkTensor float32 cpu (Strided ([example_grid] ++ [example_grid]))).
Proof.
  apply (X3_batches_concatenate subdivide rasterize float32 cpu
           (t_data example_vertices) (t_data example_vertices) example_faces
           (PyInt 3) example_origin example_origin example_scale example_scale
           false [example_grid] [example_grid]);
    try reflexivity; vm_compute; reflexivity.
Defined.


(** Two items with different default origins and scales; item 1 alone. *)
Lemma X5_batch_independence_defaults_witness :
  exists gs g o s,
    t_data (mkTensor float32 cpu (Strided [example_grid; example_grid])) = Strided gs
    /\ gs !! 1 = Some g
    /\ (forall os, @None (list point) = Some os -> os !! 1 = Some o)
    /\ (forall ss, @None (list Q) = Some ss -> ss !! 1 = Some s)
    /\ trianglemeshes_to_voxelgrids subdivide rasterize
         (mkTensor float32 cpu [[(1, 1, 1); (3, 1, 1); (1, 1, 3)]%Q])
         example_faces (PyInt 3) (entry_of None o) (entry_of None s) false
       = Ok (mkTensor float32 cpu (Strided [g])).
Proof.
  apply (X5_batch_independence_with_defaults subdivide rasterize
           (mkTensor float32 cpu
              [ [(0, 0, 0); (1, 0, 0); (0, 0, 1)];
                [(1, 1, 1); (3, 1, 1); (1, 1, 3)] ]%Q)
           example_faces (PyInt 3) None None false
           (mkTensor float32 cpu (Strided [example_grid; example_grid])) 1
           [(1, 1, 1); (3, 1, 1); (1, 1, 3)]%Q).
  - discriminate.
  - discriminate.
  - vm_compute. reflexivity.
  - reflexivity.
Defined.

(** Two items and an origin of three entries. *)
Lemma X7_mismatched_sizes_witness :
  exists e,
    trianglemeshes_to_voxelgrids subdivide rasterize
      (mkTensor float32 cpu (t_data example_vertices ++ t_data example_vertices))
      example_faces (PyInt 3)
      (Some [(0, 0, 0); (0, 0, 0); (0, 0, 0)]%Q) None false
    = Raise e.
Proof.
  apply (X7_mismatched_sizes_raise subdivide rasterize
           (mkTensor float32 cpu (t_data example_vertices ++ t_data example_vertices))
           example_faces (PyInt 3)
           (Some [(0, 0, 0); (0, 0, 0); (0, 0, 0)]%Q) None false).
  - simpl. lia.
  - left. eexists. split; [reflexivity |]. simpl. lia.
Defined.

Lemma X9_default_scale_sign_witness :
  (0 <= 1)%Q /\
  ((1 == 0)%Q <->
   forall v w, In v [(0, 0, 0); (1, 0, 0); (0, 0, 1)]%Q ->
               In w [(0, 0, 0); (1, 0, 0); (0, 0, 1)]%Q -> same_point v w).
Proof.
  apply (X9_default_scale_sign (t_data example_vertices)
           [(0, 0, 0)%Q] [(1, 0, 1)%Q] [(1 - 0, 0 - 0, 1 - 0)%Q] 0
           [(0, 0, 0); (1, 0, 0); (0, 0, 1)]%Q 1%Q); reflexivity.
Defined.

Lemma X10_empty_batch_witness :
  (forall sub' rast' faces' return_sparse',
      trianglemeshes_to_voxelgrids subdivide rasterize
        (mkTensor float64 (cuda 0) []) example_faces (PyInt 3)
        (Some []) (Some []) true
      = trianglemeshes_to_voxelgrids sub' rast' (mkTensor float64 (cuda 0) [])
          faces' (PyInt 3) (Some []) (Some []) return_sparse')
  /\
  (forall G,
      trianglemeshes_to_voxelgrids subdivide rasterize
        (mkTensor float64 (cuda 0) []) example_faces (PyInt 3)
        (Some []) (Some []) true = Ok G ->
      G = mkTensor float64 (cuda 0) (Strided [])).
Proof.
  apply (X10_empty_batch subdivide rasterize (mkTensor float64 (cuda 0) [])
           example_faces (PyInt 3) (Some []) (Some []) true).
  reflexivity.
Defined.

Lemma X11_empty_item_witness :
  exists e,
    trianglemeshes_to_voxelgrids subdivide rasterize (mkTensor float32 cpu [[]])
      example_faces (PyInt 3) None (Some [1%Q]) false
    = Raise e.
Proof.
  apply (X11_default_of_empty_item_raises subdivide rasterize
           (mkTensor float32 cpu [[]]) example_faces (PyInt 3) None (Some [1%Q])
           false).
  - left. reflexivity.
  - left. reflexivity.
Defined.
